(** * Route discovery and build configuration of miroldev/remix

    A shallow embedding of [packages/core/routesConvention.ts],
    [packages/core/config.ts] and the build orchestrator, followed by the
    properties the specification states about them.

    Strings are byte strings ([string]); a JavaScript object used as a
    dictionary is an insertion-ordered association list with unique keys
    (the order [Object.keys] gives for keys that are not array indices;
    keys are taken not to name a property inherited from
    [Object.prototype]); a function that can [throw] returns a [Result];
    paths follow POSIX. *)

From Stdlib Require Import ZArith Ascii String.
From stdpp Require Import base list strings gmap sorting.

Set Warnings "-register-all,-clear-no-such-hyp".

(* ================================================================== *)
(** * Part I: definitions                                              *)
(* ================================================================== *)

(** ** Exceptions *)

Inductive Exn : Type :=
| JsError (msg : string)              (* throw new Error(msg) *)
| SysError (code : string).           (* thrown by the fs module *)

(** [OutOfFuel] is not a JavaScript outcome: it marks a recursion bound of
    the model that was too small.  [defineConventionalRoutes_terminates]
    shows the bound the model uses is never reached. *)
Inductive Result (A : Type) : Type :=
| Ok (a : A)
| Throw (e : Exn)
| OutOfFuel.
Arguments Ok {A} a.
Arguments Throw {A} e.
Arguments OutOfFuel {A}.

Definition throws {A} (r : Result A) : Prop := ∃ e, r = Throw e.

#[global] Instance Result_ret : MRet Result := λ A a, Ok a.
#[global] Instance Result_bind : MBind Result := λ A B f m,
  match m with
  | Ok a => f a
  | Throw e => Throw e
  | OutOfFuel => OutOfFuel
  end.

(** [for (let x of xs) { ys.push(f(x)) }], stopping at the first throw. *)
Fixpoint forOf {A B} (f : A → Result B) (xs : list A) : Result (list B) :=
  match xs with
  | [] => Ok []
  | x :: xs' => y ← f x; ys ← forOf f xs'; Ok (y :: ys)
  end.

(** ** JavaScript strings *)

(** [s.startsWith(p)] *)
Definition startsWith (s p : string) : bool := String.prefix p s.

(** [s.endsWith(suffix)] *)
Fixpoint endsWith (s suffix : string) : bool :=
  if String.eqb s suffix then true
  else match s with
       | "" => false
       | String _ s' => endsWith s' suffix
       end.

(** [s.slice(n)] for [n >= 0] *)
Fixpoint slice (n : nat) (s : string) : string :=
  match n, s with
  | 0, _ => s
  | S n', String _ s' => slice n' s'
  | S _, "" => ""
  end.

(** [s.replace(/c/g, d)] for a one-character pattern *)
Fixpoint replaceAll (c d : ascii) (s : string) : string :=
  match s with
  | "" => ""
  | String x s' => String (if Ascii.eqb x c then d else x) (replaceAll c d s')
  end.

(** [s.includes(sub)] *)
Fixpoint includes (s sub : string) : bool :=
  if startsWith s sub then true
  else match s with
       | "" => false
       | String _ s' => includes s' sub
       end.

(** Truthiness of a [string | undefined]: [undefined] and [""] are falsy. *)
Definition truthy (v : option string) : bool :=
  match v with
  | Some (String _ _) => true
  | _ => false
  end.

(** [v || d] for [v : string | undefined] *)
Definition orElse (v : option string) (d : string) : string :=
  match v with
  | Some (String c s) => String c s
  | _ => d
  end.

(** The string made of one double quote character *)
Definition dquote : string := String (ascii_of_nat 34) EmptyString.

(** ** JavaScript objects used as dictionaries *)

Section JsObj.
Context {V : Type}.

Definition JsObj : Type := list (string * V).

(** [o[k]] *)
Fixpoint obj_get (o : JsObj) (k : string) : option V :=
  match o with
  | [] => None
  | (k', v) :: o' => if String.eqb k' k then Some v else obj_get o' k
  end.

(** [o[k] = v]: an existing key keeps its place, a new key goes last. *)
Fixpoint obj_set (k : string) (v : V) (o : JsObj) : JsObj :=
  match o with
  | [] => [(k, v)]
  | (k', v') :: o' =>
      if String.eqb k' k then (k, v) :: o' else (k', v') :: obj_set k v o'
  end.

(** [Object.keys(o)] *)
Definition obj_keys (o : JsObj) : list string := o.*1.
End JsObj.
Arguments JsObj V : clear implicits.

(** ** Collaborators that live outside the modelled files *)

(** Modelled from the spec: [isModuleFile] and [isStylesFile]
    (rollup/routeModules, rollup/styles) are "pure predicates over file
    extension, supplied externally"; [createRouteId] (routes.ts) derives
    the id "from each file's path with its extension stripped";
    [ignorePackages] (compiler/browserIgnore) is the "fixed deny-list of
    known server-only/runtime packages".  [path_resolve] is Node's
    [path.resolve], which always returns an absolute path, hence a
    non-empty string. *)
Class Collaborators : Type := {
  isModuleFile : string → bool;
  isStylesFile : string → bool;
  createRouteId : string → string;
  ignorePackages : list string;
  path_resolve : list string → string;
  path_resolve_nonempty : ∀ segments, path_resolve segments ≠ ""
}.

(** [path.isAbsolute(id)] on POSIX *)
Definition path_isAbsolute (id : string) : bool := startsWith id "/".

(** [path.join(a, b)] for normalised POSIX operands *)
Definition path_join (a b : string) : string := a +:+ "/" +:+ b.

(** ** routes.ts: the route definition model *)

(** [ConfigRouteObject].  [children] is optional in the source; an absent
    [children] and an empty array are treated alike by every function
    modelled here, so both are the empty list. *)
Module Route.
Inductive t : Type := mk {
  id : string;
  path : string;
  moduleFile : option string;
  stylesFile : option string;
  parentId : option string;
  children : list t
}.
End Route.
Abbreviation ConfigRouteObject := Route.t.

(** The [rest] of [let { children, ...rest } = route]: a manifest entry. *)
Module Entry.
Record t : Type := mk {
  id : string;
  path : string;
  moduleFile : option string;
  stylesFile : option string;
  parentId : option string
}.
End Entry.

Abbreviation RouteManifest := (JsObj Entry.t).

Definition rest (route : ConfigRouteObject) : Entry.t :=
  Entry.mk (Route.id route) (Route.path route) (Route.moduleFile route)
           (Route.stylesFile route) (Route.parentId route).

(** [shallowRoute.parentId = id] *)
Definition setParentId (id : string) (route : ConfigRouteObject)
  : ConfigRouteObject :=
  Route.mk (Route.id route) (Route.path route) (Route.moduleFile route)
           (Route.stylesFile route) (Some id) (Route.children route).

(** ** The file system below the application directory *)

(** A directory is the list of its entries in [readdirSync] order.
    [FsOther] is anything [lstat] reports as neither a directory nor a
    regular file (a symbolic link, a socket, ...). *)
Inductive FsNode : Type :=
| FsFile
| FsDir (entries : list (string * FsNode))
| FsOther.

Abbreviation Dir := (list (string * FsNode)).

Fixpoint dir_lookup (d : Dir) (name : string) : option FsNode :=
  match d with
  | [] => None
  | (n, node) :: d' => if String.eqb n name then Some node else dir_lookup d' name
  end.

(** [fs.existsSync(path.join(dir, name))] *)
Definition existsSync (d : Dir) (name : string) : bool :=
  match dir_lookup d name with Some _ => true | None => false end.

(** [fs.readdirSync(path.join(dir, name))]: it throws when there is no
    such entry (ENOENT) or the entry is not a directory (ENOTDIR). *)
Definition readdirSync (d : Dir) (name : string) : Result Dir :=
  match dir_lookup d name with
  | Some (FsDir entries) => Ok entries
  | Some _ => Throw (SysError "ENOTDIR")
  | None => Throw (SysError "ENOENT")
  end.

(** [path.relative(baseDir, path.resolve(dir, filename))], where [dir] is
    given relative to [baseDir] ([""] for [baseDir] itself). *)
Definition relative (dir filename : string) : string :=
  match dir with
  | "" => filename
  | _ => path_join dir filename
  end.

(** [visitFiles(dir, visitor, baseDir)] at the node found at [file]
    (relative to [baseDir]); the visitor updates a state [S] and may
    throw, which ends the loop. *)
Fixpoint visitNode {S : Type} (visitor : string → S → Result S)
    (file : string) (node : FsNode) (st : S) : Result S :=
  match node with
  | FsDir entries =>
      foldl (λ (acc : Result S) (entry : string * FsNode),
               st ← acc; visitNode visitor (relative file entry.1) entry.2 st)
            (Ok st) entries
  | FsFile => visitor file st
  | FsOther => Ok st
  end.

Definition visitFiles {S : Type} (entries : Dir)
    (visitor : string → S → Result S) (st : S) : Result S :=
  visitNode visitor "" (FsDir entries) st.

(** The files [visitFiles] hands to its visitor, in order. *)
Fixpoint filesUnder (file : string) (node : FsNode) : list string :=
  match node with
  | FsDir entries =>
      concat ((λ entry : string * FsNode,
                 filesUnder (relative file entry.1) entry.2) <$> entries)
  | FsFile => [file]
  | FsOther => []
  end.

(** The files below [<appDir>/routes], relative to it. *)
Definition routeFileNames (app : Dir) : list string :=
  match dir_lookup app "routes" with
  | Some (FsDir entries) => filesUnder "" (FsDir entries)
  | _ => []
  end.

(** The visitor applied to a list of files in turn. *)
Fixpoint visitAll {S : Type} (visitor : string → S → Result S)
    (files : list string) (st : S) : Result S :=
  match files with
  | [] => Ok st
  | file :: files' => st' ← visitor file st; visitAll visitor files' st'
  end.

(** ** routesConvention.ts *)

(** [/\w/]: the word characters of a JavaScript regular expression *)
Definition isWordChar (c : ascii) : bool :=
  let n := nat_of_ascii c in
  (((48 <=? n) && (n <=? 57)) || ((65 <=? n) && (n <=? 90))
   || ((97 <=? n) && (n <=? 122)) || (n =? 95))%nat.

(** [\b] between a previous and a next character (absent at either end) *)
Definition wordBoundary (prev next : option ascii) : bool :=
  negb (eqb (from_option isWordChar false prev)
            (from_option isWordChar false next)).

Definition head_char (s : string) : option ascii :=
  match s with "" => None | String c _ => Some c end.

(** [/\/?index$/] anchored at the start of [s] *)
Definition matchSlashIndexEnd (s : string) : bool :=
  String.eqb s "/index" || String.eqb s "index".

(** [/\b\/?index$/.test(s)], trying each start position from the left;
    [prev] is the character before [s]. *)
Fixpoint testIndexFrom (prev : option ascii) (s : string) : bool :=
  (wordBoundary prev (head_char s) && matchSlashIndexEnd s)
  || match s with
     | "" => false
     | String c s' => testIndexFrom (Some c) s'
     end.

(** [s.replace(/\/?index$/, "")]: the leftmost match is removed. *)
Fixpoint replaceIndexEnd (s : string) : string :=
  if matchSlashIndexEnd s then ""
  else match s with
       | "" => ""
       | String c s' => String c (replaceIndexEnd s')
       end.

Definition createRoutePath (routeId : string) : string :=
  let path := replaceAll "." "/" (replaceAll "$" ":" routeId) in
  if testIndexFrom None path then replaceIndexEnd path else path.

Definition byLongestFirst (a b : string) : Z :=
  (Z.of_nat (String.length b) - Z.of_nat (String.length a))%Z.

(** [Array.prototype.sort] with a comparator: a stable sort. *)
Fixpoint sortInsert {A} (cmp : A → A → Z) (x : A) (l : list A) : list A :=
  match l with
  | [] => [x]
  | y :: l' => if (cmp x y <=? 0)%Z then x :: y :: l'
               else y :: sortInsert cmp x l'
  end.

Fixpoint sort {A} (cmp : A → A → Z) (l : list A) : list A :=
  match l with
  | [] => []
  | x :: l' => sortInsert cmp x (sort cmp l')
  end.

Definition findParentRouteId (routeIds : list string) (childRouteId : string)
  : option string :=
  List.find (λ id, startsWith childRouteId (id +:+ "/"))
            (sort byLongestFirst routeIds).

Section Convention.
Context `{!Collaborators}.

(** The value type of [routeFiles]. *)
Record RouteFiles : Type := mkRouteFiles {
  module : option string;
  styles : option string
}.

(** [findOrCreateFiles(file)]: the id and [routeFiles] with an entry
    for it. *)
Definition findOrCreateFiles (file : string) (routeFiles : JsObj RouteFiles)
  : string * JsObj RouteFiles :=
  let id := createRouteId file in
  match obj_get routeFiles id with
  | Some _ => (id, routeFiles)
  | None => (id, obj_set id (mkRouteFiles None None) routeFiles)
  end.

(** The visitor that [defineConventionalRoutes] passes to [visitFiles]. *)
Definition collectRouteFile (appDir : string) (file : string)
    (routeFiles : JsObj RouteFiles) : Result (JsObj RouteFiles) :=
  let '(id, routeFiles) := findOrCreateFiles (path_join "routes" file) routeFiles in
  let files := default (mkRouteFiles None None) (obj_get routeFiles id) in
  if isModuleFile file then
    Ok (obj_set id (mkRouteFiles (Some (path_join "routes" file)) (styles files))
                routeFiles)
  else if isStylesFile file then
    Ok (obj_set id (mkRouteFiles (module files) (Some (path_join "routes" file)))
                routeFiles)
  else
    Throw (JsError ("Invalid route component file: "
                    +:+ path_join (path_join appDir "routes") file)).

(** Modelled from the spec: [defineRoute] of the route-tree builder of
    routes.ts ("a mutable route-tree builder exposing a declarative
    define child route(s) capability").  [current] is the id of the route
    whose children are being defined; the new route gets the id derived
    from its module file, [current] as its [parentId], and the routes its
    [children] callback defines as its children. *)
Definition defineRoute (current : option string) (path module : string)
    (styles : option string)
    (children : option string → Result (list ConfigRouteObject))
  : Result ConfigRouteObject :=
  let id := createRouteId module in
  nested ← children (Some id);
  Ok (Route.mk id path (Some module) styles current nested).

(** Modelled from the spec: [defineRoutes(callback)] runs the callback
    on a fresh builder, with no route open, and returns the top level
    routes. *)
Definition defineRoutes
    (callback : option string → Result (list ConfigRouteObject))
  : Result (list ConfigRouteObject) :=
  callback None.

(** [defineNestedRoutes(defineRoute, parentRouteId)].  The recursion goes
    through the [children] callback of [defineRoute]; [fuel] bounds its
    depth, and [current] is the builder's open route. *)
Fixpoint defineNestedRoutes (fuel : nat) (routeFiles : JsObj RouteFiles)
    (parentRouteId : option string) (current : option string)
  : Result (list ConfigRouteObject) :=
  match fuel with
  | 0 => OutOfFuel
  | S fuel' =>
      let routeIds := obj_keys routeFiles in
      let childRouteIds :=
        filter (λ id, findParentRouteId routeIds id = parentRouteId) routeIds in
      forOf (λ routeId,
        let routePath :=
          createRoutePath
            (slice (String.length (orElse parentRouteId "routes") + 1) routeId) in
        let files := default (mkRouteFiles None None) (obj_get routeFiles routeId) in
        if truthy (module files) then
          defineRoute current routePath (default "" (module files)) (styles files)
            (defineNestedRoutes fuel' routeFiles (Some routeId))
        else
          Throw (JsError ("There is a styles file for route " +:+ dquote
                          +:+ routeId +:+ dquote +:+ ", but no module")))
        childRouteIds
  end.

Definition findRootRouteModule (app : Dir) (name : string) : Result string :=
  let potentialNames := (λ ext, name +:+ "." +:+ ext) <$> ["js"; "jsx"; "tsx"] in
  match List.find (existsSync app) potentialNames with
  | Some name => Ok name
  | None =>
      Throw (JsError "No root route module found. Please create a file at `<appDir>/root.{js,jsx,tsx}`")
  end.

(** The length of the longest route id. *)
Definition longest (routeIds : list string) : nat :=
  foldr (λ id, Nat.max (String.length id)) 0 routeIds.

(** The depth bound handed to [defineNestedRoutes]: ids get strictly
    longer from parent to child. *)
Definition nestingBound (routeIds : list string) : nat :=
  S (S (longest routeIds)).

(** [defineLayoutRoutes(layoutRouteName)] *)
Definition defineLayoutRoutes (app : Dir) (routeFiles : JsObj RouteFiles)
    (layoutRouteName : string) : Result (list ConfigRouteObject) :=
  let id := "__" +:+ layoutRouteName in
  routes ← defineRoutes
    (defineNestedRoutes (nestingBound (obj_keys routeFiles)) routeFiles None);
  let routes := setParentId id <$> routes in
  moduleFile ← findRootRouteModule app layoutRouteName;
  Ok [Route.mk id "/" (Some moduleFile) None None routes].

(** [defineConventionalRoutes(layoutRouteId, appDir)]; [app] is what the
    file system holds at [appDir]. *)
Definition defineConventionalRoutes (app : Dir) (layoutRouteId appDir : string)
  : Result (list ConfigRouteObject) :=
  entries ← readdirSync app "routes";
  routeFiles ← visitFiles entries (collectRouteFile appDir) [];
  defineLayoutRoutes app routeFiles layoutRouteId.

(** Modelled from the spec: [getConventionalRoutes] of routes.ts,
    "resolve(sourceDir, dataDir) -> RouteTree", with the root layout
    module named [root]. *)
Definition getConventionalRoutes (app : Dir) (appDir dataDir : string)
  : Result (list ConfigRouteObject) :=
  defineConventionalRoutes app "root" appDir.

(** The id of the route a file under [routes] belongs to. *)
Definition routeIdOfFile (file : string) : string :=
  createRouteId (path_join "routes" file).

(** [routeFiles[id].module] is set. *)
Definition hasModule (routeFiles : JsObj RouteFiles) (id : string) : bool :=
  truthy (module (default (mkRouteFiles None None) (obj_get routeFiles id))).

(** What [routeFiles] holds once [files] have been visited. *)
Definition collected (files : list string) (routeFiles : JsObj RouteFiles) : Prop :=
  ∀ id,
    (id ∈ obj_keys routeFiles ↔ ∃ file, file ∈ files ∧ routeIdOfFile file = id)
    ∧ (hasModule routeFiles id = true
       ↔ ∃ file, file ∈ files ∧ isModuleFile file = true ∧ routeIdOfFile file = id).

(** The fuel a call of [defineNestedRoutes] with this parent needs. *)
Definition fuelNeeded (routeIds : list string) (parentRouteId : option string) : nat :=
  match parentRouteId with
  | None => S (S (longest routeIds))
  | Some p => S (longest routeIds - String.length p)
  end.

(** [<appDir>/routes] cannot be listed: it is missing or not a directory. *)
Definition routesUnreadable (app : Dir) : Prop :=
  ∀ entries, dir_lookup app "routes" ≠ Some (FsDir entries).

(** A regular file under [routes] is neither a module nor a styles file. *)
Definition invalidRouteFile (app : Dir) : Prop :=
  ∃ file, file ∈ routeFileNames app
          ∧ isModuleFile file = false ∧ isStylesFile file = false.

(** A route id has a styles file and no module file. *)
Definition stylesWithoutModule (app : Dir) : Prop :=
  ∃ file, file ∈ routeFileNames app
          ∧ isModuleFile file = false ∧ isStylesFile file = true
          ∧ ∀ other, other ∈ routeFileNames app → isModuleFile other = true →
                     routeIdOfFile other ≠ routeIdOfFile file.

(** None of [<name>.js], [<name>.jsx], [<name>.tsx] exists in the
    application directory. *)
Definition noRootModule (app : Dir) (layoutRouteId : string) : Prop :=
  ∀ ext, ext ∈ ["js"; "jsx"; "tsx"] →
         existsSync app (layoutRouteId +:+ "." +:+ ext) = false.

End Convention.

(** ** config.ts *)

(** The body of the loop of [createRouteManifest(routes, manifest)] for
    one route: store the route without its children under its id, then
    descend into the children with the same manifest. *)
Fixpoint addRoute (route : ConfigRouteObject) (manifest : RouteManifest)
  : RouteManifest :=
  foldl (λ manifest child, addRoute child manifest)
        (obj_set (Route.id route) (rest route) manifest)
        (Route.children route).

Definition createRouteManifest (routes : list ConfigRouteObject)
    (manifest : RouteManifest) : RouteManifest :=
  foldl (λ manifest route, addRoute route manifest) manifest routes.

(** The user-provided config in remix.config.js.  [routes] holds what the
    user's callback resolves to (or the error it rejects with), [mdx] is
    passed through unread. *)
Module AppConfig.
Record t : Type := mk {
  appDirectory : option string;
  browserBuildDirectory : option string;
  dataDirectory : option string;
  devServerPort : option Z;
  publicPath : option string;
  routes : option (Result (list ConfigRouteObject));
  serverBuildDirectory : option string;
  mdx : option string
}.
End AppConfig.

Module RemixConfig.
Record t : Type := mk {
  appDirectory : string;
  browserBuildDirectory : string;
  dataDirectory : string;
  devServerPort : Z;
  publicPath : string;
  rootDirectory : string;
  routes : list ConfigRouteObject;
  routeManifest : RouteManifest;
  serverBuildDirectory : string;
  mdx : option string
}.
End RemixConfig.

(** What [require(configFile)] did. *)
Inductive Required : Type :=
| Loaded (appConfig : AppConfig.t)
| NotFound                         (* MODULE_NOT_FOUND *)
| Raised (error : Exn).            (* the file exists and throws when loaded *)

(** [let publicPath = appConfig.publicPath || "/build/";
     if (!publicPath.endsWith("/")) publicPath += "/";] *)
Definition resolvePublicPath (configured : option string) : string :=
  let publicPath := orElse configured "/build/" in
  if negb (endsWith publicPath "/") then publicPath +:+ "/" else publicPath.

(** [n || d] for [n : number | undefined] *)
Definition orElseNum (v : option Z) (d : Z) : Z :=
  match v with
  | Some 0%Z | None => d
  | Some n => n
  end.

Section Config.
Context `{!Collaborators}.

(** [readConfig(remixRoot)].  The environment is explicit: the value of
    [process.env.REMIX_ROOT], [process.cwd()], the outcome of requiring
    the config file at a path, and the contents of a directory. *)
Definition resolveRoot (env_REMIX_ROOT : option string) (cwd : string)
    (remixRoot : option string) : string :=
  let remixRoot :=
    if truthy remixRoot then default "" remixRoot
    else orElse env_REMIX_ROOT cwd in
  path_resolve [remixRoot].

Definition readConfig (env_REMIX_ROOT : option string) (cwd : string)
    (require : string → Required) (fs : string → Dir)
    (remixRoot : option string) : Result RemixConfig.t :=
  let rootDirectory := resolveRoot env_REMIX_ROOT cwd remixRoot in
  let configFile := path_resolve [rootDirectory; "remix.config.js"] in
  match require configFile with
  | NotFound | Raised _ =>
      Throw (JsError ("Missing remix.config.js in " +:+ rootDirectory))
  | Loaded appConfig =>
      let appDirectory :=
        path_resolve [rootDirectory; orElse (AppConfig.appDirectory appConfig) "app"] in
      let browserBuildDirectory :=
        path_resolve [rootDirectory;
                      orElse (AppConfig.browserBuildDirectory appConfig)
                             (path_join "public" "build")] in
      let dataDirectory :=
        path_resolve [rootDirectory; orElse (AppConfig.dataDirectory appConfig) "data"] in
      let devServerPort := orElseNum (AppConfig.devServerPort appConfig) 8002%Z in
      let publicPath := resolvePublicPath (AppConfig.publicPath appConfig) in
      routes ← getConventionalRoutes (fs appDirectory) appDirectory dataDirectory;
      manualRoutes ← match AppConfig.routes appConfig
                           return Result (list ConfigRouteObject) with
                     | Some manual => manual
                     | None => Ok []
                     end;
      let routes := routes ++ manualRoutes in
      let routeManifest := createRouteManifest routes [] in
      let serverBuildDirectory :=
        path_resolve [rootDirectory;
                      orElse (AppConfig.serverBuildDirectory appConfig) "build"] in
      Ok (RemixConfig.mk appDirectory browserBuildDirectory dataDirectory
            devServerPort publicPath rootDirectory routes routeManifest
            serverBuildDirectory (AppConfig.mdx appConfig))
  end.

Definition configFileOf (env_REMIX_ROOT : option string) (cwd : string)
    (remixRoot : option string) : string :=
  path_resolve [resolveRoot env_REMIX_ROOT cwd remixRoot; "remix.config.js"].

Definition failsToLoad (outcome : Required) : Prop :=
  outcome = NotFound ∨ ∃ error, outcome = Raised error.

End Config.

(** ** The build orchestrator *)

(** Modelled from the spec: the constants [BuildMode], [BuildTarget],
    [AssetManifestFilename] and [ServerManifestFilename] of
    [@remix-run/core] ("target ∈ {browser, server}", "mode
    (development|production)", "asset-manifest.json for browser,
    server-manifest.json for server"). *)
Module BuildMode.
Definition Development : string := "development".
Definition Production : string := "production".
End BuildMode.

Module BuildTarget.
Definition Browser : string := "browser".
Definition Server : string := "server".
End BuildTarget.

Definition AssetManifestFilename : string := "asset-manifest.json".
Definition ServerManifestFilename : string := "server-manifest.json".

(** All file extensions we support for entry files. *)
Definition entryExts : list string := [".js"; ".jsx"; ".ts"; ".tsx"].

Record BuildOptions : Type := mkBuildOptions {
  mode : string;
  target : string
}.

(** [Partial<BuildOptions>]: a missing property is [None]. *)
Record PartialBuildOptions : Type := mkPartial {
  partial_mode : option string;
  partial_target : option string
}.

(** Rollup's [external] option: a predicate on module ids, or a list of
    ids. *)
Inductive ExternalOption : Type :=
| ExternalFn (f : string → bool)
| ExternalIds (ids : list string).


Definition importHints : list string := ["css:"; "img:"; "url:"].

Definition isImportHint (id : string) : bool :=
  existsb (λ hint, startsWith id hint) importHints.

(** The patterns of the output options that name files carry a content
    hash when they contain the [hash] placeholder. *)
Definition hasHash (pattern : string) : bool := includes pattern "[hash]".

Record OutputOptions : Type := mkOutputOptions {
  format : string;
  exports : option string;
  assetFileNames : string;
  chunkFileNames : string;
  entryFileNames : string
}.

(** [getOutputOptions(build)]; [manualChunks], which groups modules into
    chunks and holds no file name pattern, is left out. *)
Definition getOutputOptions (options : BuildOptions) : OutputOptions :=
  let isServer := String.eqb (target options) BuildTarget.Server in
  let hashed := String.eqb (mode options) BuildMode.Production
                && String.eqb (target options) BuildTarget.Browser in
  {| format := if isServer then "cjs" else "esm";
     exports := if isServer then Some "named" else None;
     assetFileNames := if hashed then "[name]-[hash][extname]" else "[name][extname]";
     chunkFileNames := "_shared/[name]-[hash].js";
     entryFileNames := if hashed then "[name]-[hash].js" else "[name].js" |}.

Section Build.
Context `{!Collaborators}.

Definition isLocalModuleId (id : string) : bool :=
  startsWith id "." || path_isAbsolute id.

Definition getExternalOption (target : string) : ExternalOption :=
  if String.eqb target BuildTarget.Server
  then ExternalFn (λ id, negb (isLocalModuleId id) && negb (isImportHint id))
  else ExternalIds ignorePackages.

(** [findFile(dir, basename, possibleExts)]; [fs dir] is what the file
    system holds at [dir]. *)
Definition findFile (fs : string → Dir) (dir basename : string)
    (possibleExts : list string) : option string :=
  (λ ext, path_resolve [dir; basename +:+ ext])
    <$> List.find (λ ext, existsSync (fs dir) (basename +:+ ext)) possibleExts.

(** The entry of [getInputOption] for one target. *)
Definition entryInput (fs : string → Dir) (config : RemixConfig.t)
    (name : string) : Result (JsObj string) :=
  let entryFile := findFile fs (RemixConfig.appDirectory config) name entryExts in
  if truthy entryFile then Ok (obj_set name (default "" entryFile) [])
  else Throw (JsError ("Missing " +:+ dquote +:+ name +:+ dquote +:+ " file in "
                       +:+ RemixConfig.appDirectory config)).

(** The loop body of [getInputOption] over the manifest keys. *)
Definition addRouteInput (config : RemixConfig.t) (input : JsObj string)
    (key : string) : JsObj string :=
  match obj_get (RemixConfig.routeManifest config) key with
  | Some route =>
      if truthy (Entry.moduleFile route) then
        obj_set (Entry.id route)
                (path_resolve [RemixConfig.appDirectory config;
                               default "" (Entry.moduleFile route)])
                input
      else input
  | None => input
  end.

Definition getInputOption (fs : string → Dir) (config : RemixConfig.t)
    (target : string) : Result (JsObj string) :=
  input ← (if String.eqb target BuildTarget.Browser then
             entryInput fs config "entry.client"
           else if String.eqb target BuildTarget.Server then
             entryInput fs config "entry.server"
           else Ok []);
  Ok (foldl (addRouteInput config) input
            (obj_keys (RemixConfig.routeManifest config))).

(** The build [build] returns: the [external] option it hands to
    [rollup.rollup] and the options [createBuild] attaches.  The plugin
    pipeline and the [treeshake] and [onwarn] options are left out. *)
Record RemixBuild : Type := mkRemixBuild {
  external : ExternalOption;
  options : BuildOptions
}.

(** [build(config, { mode = Production, target = Server } = {})] *)
Definition build (config : RemixConfig.t) (opts : option PartialBuildOptions)
  : RemixBuild :=
  let opts := default (mkPartial None None) opts in
  let mode := default BuildMode.Production (partial_mode opts) in
  let target := default BuildTarget.Server (partial_target opts) in
  let buildOptions := mkBuildOptions mode target in
  mkRemixBuild (getExternalOption target) buildOptions.

(** [watch(config, { mode = Development, target = Browser, ... } = {})]:
    the options of every build the watcher produces. *)
Definition watch (config : RemixConfig.t) (opts : option PartialBuildOptions)
  : RemixBuild :=
  let opts := default (mkPartial None None) opts in
  let mode := default BuildMode.Development (partial_mode opts) in
  let target := default BuildTarget.Browser (partial_target opts) in
  let buildOptions := mkBuildOptions mode target in
  mkRemixBuild (getExternalOption target) buildOptions.

(** The input the loop of [getInputOption] adds for a manifest key. *)
Definition routeInput (config : RemixConfig.t) (key : string) : option (string * string) :=
  match obj_get (RemixConfig.routeManifest config) key with
  | Some route =>
      if truthy (Entry.moduleFile route)
      then Some (Entry.id route,
                 path_resolve [RemixConfig.appDirectory config;
                               default "" (Entry.moduleFile route)])
      else None
  | None => None
  end.

(** What [getInputOption] computes for a target whose entry is [name]. *)
Definition inputsFor (fs : string → Dir) (config : RemixConfig.t)
    (name : string) : Result (JsObj string) :=
  input ← entryInput fs config name;
  Ok (foldl (addRouteInput config) input
            (obj_keys (RemixConfig.routeManifest config))).

End Build.

(** ** Notions the specification uses *)

(** The parent-to-child edges of a route tree. *)
Fixpoint routeEdges (route : ConfigRouteObject) : gset (string * string) :=
  ⋃ ((λ child, {[ (Route.id route, Route.id child) ]} ∪ routeEdges child)
       <$> Route.children route).

Definition treeEdges (routes : list ConfigRouteObject) : gset (string * string) :=
  ⋃ (routeEdges <$> routes).

(** The edges reconstructed from a manifest: one from [parentId] to the
    key of every entry that has a [parentId]. *)
Definition entryEdge (item : string * Entry.t) : option (string * string) :=
  (λ parent, (parent, item.1)) <$> Entry.parentId item.2.

Definition manifestEdges (manifest : RouteManifest) : gset (string * string) :=
  list_to_set (omap entryEdge manifest).

(** The ids of a route tree, in the order [createRouteManifest] meets
    them. *)
Fixpoint routeIdsOf (route : ConfigRouteObject) : list string :=
  Route.id route :: concat (routeIdsOf <$> Route.children route).

Definition treeIds (routes : list ConfigRouteObject) : list string :=
  concat (routeIdsOf <$> routes).

(** The manifest entries of a route tree, in the same order. *)
Fixpoint routeEntries (route : ConfigRouteObject) : list (string * Entry.t) :=
  (Route.id route, rest route) :: concat (routeEntries <$> Route.children route).

Definition treeEntries (routes : list ConfigRouteObject) : list (string * Entry.t) :=
  concat (routeEntries <$> routes).

(** Every route names the route that contains it as its parent; [parent]
    is what contains [route] ([None] at the top level). *)
Fixpoint parentLinked (parent : option string) (route : ConfigRouteObject) : bool :=
  bool_decide (Route.parentId route = parent)
  && forallb (parentLinked (Some (Route.id route))) (Route.children route).

Definition treeParentLinked (routes : list ConfigRouteObject) : bool :=
  forallb (parentLinked None) routes.

(** [x] may stand before [y] in an array sorted by [cmp]. *)
Definition inOrder {A} (cmp : A → A → Z) (x y : A) : Prop := (cmp x y ≤ 0)%Z.

(** The character before the end of [q], or [prev] when [q] is empty. *)
Fixpoint charBefore (prev : option ascii) (q : string) : option ascii :=
  match q with
  | "" => prev
  | String c q' => charBefore (Some c) q'
  end.

(** Does [q] end in a word character? *)
Definition endsInWordChar (q : string) : bool :=
  from_option isWordChar false (charBefore None q).

(** Every entry of the manifest is stored under its own id. *)
Definition wellKeyed (manifest : RouteManifest) : Prop :=
  ∀ key route, obj_get manifest key = Some route → Entry.id route = key.

Definition addsFresh (route : ConfigRouteObject) : Prop :=
  ∀ manifest : RouteManifest,
    NoDup (obj_keys manifest ++ routeIdsOf route) →
    addRoute route manifest = manifest ++ routeEntries route.

Definition linkEdge (parent : option string) (id : string) : gset (string * string) :=
  match parent with
  | Some p => {[ (p, id) ]}
  | None => ∅
  end.

(** ** An instance of the collaborators, for the examples *)

(** The extension of a file name: from the last dot of its last path
    component; empty when there is none. *)
Fixpoint extname (file : string) : string :=
  match file with
  | "" => ""
  | String c file' =>
      if Ascii.eqb c "." && negb (includes file' ".") && negb (includes file' "/")
      then file
      else extname file'
  end.

Fixpoint stripExtension (file : string) : string :=
  match file with
  | "" => ""
  | String c file' =>
      if Ascii.eqb c "." && negb (includes file' ".") && negb (includes file' "/")
      then ""
      else String c (stripExtension file')
  end.

Lemma string_app_cons c s t : String c s +:+ t = String c (s +:+ t).
Proof. reflexivity. Qed.

(** An absolute segment restarts the path, a relative one is appended;
    no normalisation. *)
Definition posix_resolve (segments : list string) : string :=
  foldl (λ acc segment,
           if startsWith segment "/" then segment else acc +:+ "/" +:+ segment)
        "/cwd" segments.

Lemma posix_resolve_nonempty segments : posix_resolve segments ≠ "".
Proof.
  unfold posix_resolve. assert ("/cwd" ≠ "") as Hacc by done.
  revert Hacc. generalize "/cwd".
  induction segments as [|segment segments IH]; intros acc Hacc; [done |].
  simpl. apply IH.
  destruct (startsWith segment "/") eqn:E.
  - intros ->. discriminate E.
  - destruct acc; [done |]. by rewrite string_app_cons.
Qed.

(** Modelled from the spec: one choice of the collaborators, with the
    module extensions of the entry files and of MDX, [.css] for styles,
    ids that are paths "with the extension stripped", and a short
    deny-list. *)
#[export] Instance posix_collaborators : Collaborators := {|
  isModuleFile file :=
    bool_decide (extname file ∈ [".js"; ".jsx"; ".ts"; ".tsx"; ".md"; ".mdx"]);
  isStylesFile file := bool_decide (extname file = ".css");
  createRouteId := stripExtension;
  ignorePackages := ["@remix-run/data"; "@remix-run/express"; "node-fetch"];
  path_resolve := posix_resolve;
  path_resolve_nonempty := posix_resolve_nonempty
|}.

(** ** The examples *)


(** The tree of the specification's end-to-end example, with one route
    defined by hand next to the root. *)
Definition exampleTree : list ConfigRouteObject :=
  [Route.mk "__root" "/" (Some "root.tsx") None None
     [Route.mk "routes/index" "" (Some "routes/index.tsx") None (Some "__root") [];
      Route.mk "routes/gists" "gists" (Some "routes/gists.tsx")
        (Some "routes/gists.css") (Some "__root")
        [Route.mk "routes/gists/$username" ":username"
           (Some "routes/gists/$username.tsx") None (Some "routes/gists") []]];
   Route.mk "pages/about" "about" (Some "pages/about.tsx") None None []].

(** The application directory of the example and its configuration. *)
Definition exampleApp : Dir :=
  [("entry.client.tsx", FsFile); ("entry.server.tsx", FsFile);
   ("root.tsx", FsFile);
   ("routes", FsDir [("index.tsx", FsFile); ("gists.tsx", FsFile);
                     ("gists.css", FsFile);
                     ("gists", FsDir [("$username.tsx", FsFile)])])].

Definition exampleConfig : RemixConfig.t :=
  RemixConfig.mk "/site/app" "/site/public/build" "/site/data" 8002 "/build/"
    "/site" exampleTree (createRouteManifest exampleTree []) "/site/build" None.

(** ** Further notions: manifests *)

(** The entry the last item with key [key] holds. *)
Fixpoint lastEntry (key : string) (entries : list (string * Entry.t))
  : option Entry.t :=
  match entries with
  | [] => None
  | (k, entry) :: entries' =>
      match lastEntry key entries' with
      | Some later => Some later
      | None => if String.eqb k key then Some entry else None
      end
  end.

(** [manifest[item.id] = item] for each item in turn. *)
Definition setAll (manifest : RouteManifest) (items : list (string * Entry.t))
  : RouteManifest :=
  foldl (λ manifest item, obj_set item.1 item.2 manifest) manifest items.

(** ** The build orchestrator: chunks, tree shaking and plugins *)

(** [s.split(sep)] for a one-character separator: never empty. *)
Fixpoint split (sep : ascii) (s : string) : list string :=
  match s with
  | "" => [""]
  | String c s' =>
      if Ascii.eqb c sep then "" :: split sep s'
      else match split sep s' with
           | piece :: pieces => String c piece :: pieces
           | [] => [String c ""]
           end
  end.

(** [pieces.join(sep)] *)
Fixpoint join (sep : string) (pieces : list string) : string :=
  match pieces with
  | [] => ""
  | [piece] => piece
  | piece :: pieces' => piece +:+ sep +:+ join sep pieces'
  end.

(** [pieces.lastIndexOf(x)]; [None] stands for -1. *)
Fixpoint lastIndexOf (x : string) (pieces : list string) : option nat :=
  match pieces with
  | [] => None
  | piece :: pieces' =>
      match lastIndexOf x pieces' with
      | Some i => Some (S i)
      | None => if String.eqb piece x then Some 0 else None
      end
  end.

(** [s.replace(c, by)] for a one-character string pattern: the first
    occurrence only. *)
Fixpoint replaceFirst (c : ascii) (by_ : string) (s : string) : string :=
  match s with
  | "" => ""
  | String x s' => if Ascii.eqb x c then by_ +:+ s' else String x (replaceFirst c by_ s')
  end.

(** [getNpmPackageName(id)], with [path.sep] the POSIX separator. *)
Definition getNpmPackageName (id : string) : option string :=
  let pieces := split "/" id in
  match lastIndexOf "node_modules" pieces with
  | Some index =>
      if (index + 1 <? length pieces)%nat then
        let packageName := default "" (pieces !! (index + 1)%nat) in
        if startsWith packageName "@" && (index + 2 <? length pieces)%nat then
          Some (replaceFirst "@" "__" packageName +:+ "/"
                +:+ default "" (pieces !! (index + 2)%nat))
        else Some packageName
      else None
  | None => None
  end.

(** [/node_modules\b/] anchored at the start of [s] *)
Definition matchNodeModules (s : string) : bool :=
  startsWith s "node_modules"
  && wordBoundary (Some "s"%char) (head_char (slice 12 s)).

(** [/\bnode_modules\b/.test(s)], trying each start position from the
    left; [prev] is the character before [s]. *)
Fixpoint testNodeModulesFrom (prev : option ascii) (s : string) : bool :=
  (wordBoundary prev (head_char s) && matchNodeModules s)
  || match s with
     | "" => false
     | String c s' => testNodeModulesFrom (Some c) s'
     end.

(** [getTreeshakeOption(target)]: the [moduleSideEffects] predicate, or
    nothing. *)
Definition getTreeshakeOption (target : string) : option (string → bool) :=
  if String.eqb target BuildTarget.Browser
  then Some (λ id, testNodeModulesFrom None id)
  else None.

(** The plugins of the pipeline, with the options the orchestrator gives
    them.  [RemixInputs target] stands for the plugin whose [getInput] is
    [getInputOption(config, target)]; [Replace mode] replaces
    [process.env.NODE_ENV] by [JSON.stringify(mode)]; [Babel] and [Terser]
    take constant options. *)
Inductive Plugin : Type :=
| RemixConfigPlugin (rootDir : string)
| WatchDirectory (sourceDir : string)
| RemixInputs (target : string)
| Alias (find replacement : string)
| ClientServer (target : string)
| Mdx
| RouteModules (target : string)
| Json
| Img (target : string)
| Css (target mode : string)
| Url (target : string)
| Babel
| NodeResolve (browser preferBuiltins : bool)
| Commonjs
| Replace (mode : string)
| Terser
| ManifestPlugin (outputDir fileName : string).

#[export] Instance Plugin_eq_dec : EqDecision Plugin.
Proof. solve_decision. Defined.

Definition getBuildPlugins (serverBuildDir : string) (options : BuildOptions)
  : list Plugin :=
  let mode := mode options in
  let target := target options in
  let plugins := [RemixInputs target] in
  let plugins :=
    if String.eqb target BuildTarget.Browser
    then plugins ++ [Alias "@remix-run/react" "@remix-run/react/esm"]
    else plugins in
  let plugins :=
    plugins ++ [ClientServer target; Mdx; RouteModules target; Json; Img target;
                Css target mode; Url target; Babel;
                NodeResolve (String.eqb target BuildTarget.Browser)
                            (negb (String.eqb target BuildTarget.Browser));
                Commonjs; Replace mode] in
  let plugins :=
    if String.eqb mode BuildMode.Production then plugins ++ [Terser] else plugins in
  plugins ++ [ManifestPlugin serverBuildDir
                (if String.eqb target BuildTarget.Browser
                 then AssetManifestFilename else ServerManifestFilename)].

(** The [plugins] array [build] hands to [rollup.rollup]. *)
Definition buildPlugins (config : RemixConfig.t) (opts : option PartialBuildOptions)
  : list Plugin :=
  let opts := default (mkPartial None None) opts in
  let buildOptions :=
    mkBuildOptions (default BuildMode.Production (partial_mode opts))
                   (default BuildTarget.Server (partial_target opts)) in
  RemixConfigPlugin (RemixConfig.rootDirectory config)
  :: getBuildPlugins (RemixConfig.serverBuildDirectory config) buildOptions.

(** The [plugins] array [watch] hands to [rollup.watch]. *)
Definition watchPlugins (config : RemixConfig.t) (opts : option PartialBuildOptions)
  : list Plugin :=
  let opts := default (mkPartial None None) opts in
  let buildOptions :=
    mkBuildOptions (default BuildMode.Development (partial_mode opts))
                   (default BuildTarget.Browser (partial_target opts)) in
  RemixConfigPlugin (RemixConfig.rootDirectory config)
  :: WatchDirectory (RemixConfig.appDirectory config)
  :: getBuildPlugins (RemixConfig.serverBuildDirectory config) buildOptions.

(** A path piece holds no separator. *)
Definition noSlash (piece : string) : bool := negb (includes piece "/").

(** ** Further notions: resolved route trees *)

(** [routeFiles[id]], with the empty record for a missing id. *)
Definition routeFilesAt (routeFiles : JsObj RouteFiles) (id : string) : RouteFiles :=
  default (mkRouteFiles None None) (obj_get routeFiles id).

(** The [childRouteIds] of [defineNestedRoutes]. *)
Definition childRouteIdsOf (routeIds : list string) (parentRouteId : option string)
  : list string :=
  filter (λ id, findParentRouteId routeIds id = parentRouteId) routeIds.

(** The [n]-th inferred parent of an id. *)
Fixpoint ancestor (routeIds : list string) (n : nat) (id : string) : option string :=
  match n with
  | 0 => Some id
  | S n' => findParentRouteId routeIds id ≫= ancestor routeIds n'
  end.

(** All the routes of a tree, parents before children. *)
Fixpoint routeNodes (route : ConfigRouteObject) : list ConfigRouteObject :=
  route :: concat (routeNodes <$> Route.children route).

Definition treeNodes (routes : list ConfigRouteObject) : list ConfigRouteObject :=
  concat (routeNodes <$> routes).

Section Sourced.
Context `{!Collaborators}.

(** Every module and styles path of [routeFiles] comes from a visited
    file with the id it is stored under, and no id is listed twice. *)
Definition sourced (files : list string) (routeFiles : JsObj RouteFiles) : Prop :=
  NoDup (obj_keys routeFiles)
  ∧ ∀ id entry, obj_get routeFiles id = Some entry →
      (∀ m, module entry = Some m →
            ∃ file, file ∈ files ∧ isModuleFile file = true
                    ∧ m = path_join "routes" file ∧ routeIdOfFile file = id)
      ∧ (∀ s, styles entry = Some s →
              ∃ file, file ∈ files ∧ isModuleFile file = false
                      ∧ isStylesFile file = true
                      ∧ s = path_join "routes" file ∧ routeIdOfFile file = id).

(** The route [defineNestedRoutes] defines for one child id. *)
Definition routeOfChild (fuel : nat) (routeFiles : JsObj RouteFiles)
    (parentRouteId current : option string) (routeId : string)
  : Result ConfigRouteObject :=
  let routePath :=
    createRoutePath
      (slice (String.length (orElse parentRouteId "routes") + 1) routeId) in
  let files := default (mkRouteFiles None None) (obj_get routeFiles routeId) in
  if truthy (module files) then
    defineRoute current routePath (default "" (module files)) (styles files)
      (defineNestedRoutes fuel routeFiles (Some routeId))
  else
    Throw (JsError ("There is a styles file for route " +:+ dquote
                    +:+ routeId +:+ dquote +:+ ", but no module")).
End Sourced.

(** ** Further notions: the file system *)

(** A directory tree without the entries that are neither directories nor
    regular files. *)
Fixpoint withoutOthers (node : FsNode) : FsNode :=
  match node with
  | FsDir entries =>
      FsDir (omap (λ entry : string * FsNode,
                     match entry.2 with
                     | FsOther => None
                     | _ => Some (entry.1, withoutOthers entry.2)
                     end) entries)
  | other => other
  end.

Definition entriesWithoutOthers (entries : Dir) : Dir :=
  match withoutOthers (FsDir entries) with
  | FsDir pruned => pruned
  | _ => []
  end.

(** ** Further notions: configuration values *)

(** A falsy configured string ([""]) taken as absent. *)
Definition dropFalsy (v : option string) : option string :=
  if truthy v then v else None.

(** A configured port of 0 taken as absent. *)
Definition dropZero (v : option Z) : option Z :=
  match v with
  | Some 0%Z => None
  | _ => v
  end.

Definition withoutFalsy (appConfig : AppConfig.t) : AppConfig.t :=
  AppConfig.mk (dropFalsy (AppConfig.appDirectory appConfig))
               (dropFalsy (AppConfig.browserBuildDirectory appConfig))
               (dropFalsy (AppConfig.dataDirectory appConfig))
               (dropZero (AppConfig.devServerPort appConfig))
               (dropFalsy (AppConfig.publicPath appConfig))
               (AppConfig.routes appConfig)
               (dropFalsy (AppConfig.serverBuildDirectory appConfig))
               (AppConfig.mdx appConfig).

(** The example configuration file: every field left out. *)
Definition emptyAppConfig : AppConfig.t :=
  AppConfig.mk None None None None None None None None.

Section Recorded.
Context `{!Collaborators}.

(** The last of [files] that is a module file with route id [id]. *)
Definition lastModuleFile (files : list string) (id : string) : option string :=
  last (List.filter (λ file, isModuleFile file
                             && String.eqb (routeIdOfFile file) id) files).

(** The last of [files] that is a styles file, and no module file, with
    route id [id]. *)
Definition lastStylesFile (files : list string) (id : string) : option string :=
  last (List.filter (λ file, negb (isModuleFile file) && isStylesFile file
                             && String.eqb (routeIdOfFile file) id) files).

(** [routeFiles] records for every id the last module file and the last
    styles file visited for it. *)
Definition recorded (files : list string) (routeFiles : JsObj RouteFiles) : Prop :=
  ∀ id,
    module (routeFilesAt routeFiles id)
    = path_join "routes" <$> lastModuleFile files id
    ∧ styles (routeFilesAt routeFiles id)
      = path_join "routes" <$> lastStylesFile files id.
End Recorded.

(* ================================================================== *)
(** * Part II: properties                                              *)
(* ================================================================== *)

(** ** Strings *)

Lemma string_app_nil_l s : "" +:+ s = s.
Proof. reflexivity. Qed.

Lemma startsWith_nil s : startsWith s "" = true.
Proof. by destruct s. Qed.

Lemma startsWith_cons c s d p :
  startsWith (String c s) (String d p) = bool_decide (d = c) && startsWith s p.
Proof.
  unfold startsWith. simpl. destruct (ascii_dec d c); by case_bool_decide.
Qed.

Lemma startsWith_spec s p : startsWith s p = true ↔ ∃ t, s = p +:+ t.
Proof.
  revert s. induction p as [|d p IH]; intros s.
  - rewrite startsWith_nil. split; [eauto | done].
  - destruct s as [|c s].
    + split; [done | by intros [t ?]].
    + rewrite startsWith_cons, andb_true_iff, bool_decide_eq_true, IH.
      split.
      * intros [-> [t ->]]. by exists t.
      * intros [t Ht]. rewrite string_app_cons in Ht. injection Ht as -> ->. eauto.
Qed.

Lemma startsWith_length s p :
  startsWith s p = true → String.length p ≤ String.length s.
Proof.
  rewrite startsWith_spec. intros [t ->].
  induction p as [|d p IH]; [simpl; lia |].
  rewrite string_app_cons. simpl. lia.
Qed.

Lemma string_length_app s t :
  String.length (s +:+ t) = String.length s + String.length t.
Proof.
  induction s as [|c s IH]; [done |].
  rewrite string_app_cons. simpl. by rewrite IH.
Qed.

Lemma string_app_nil_r s : s +:+ "" = s.
Proof.
  induction s as [|c s IH]; [done |].
  rewrite string_app_cons. by f_equal.
Qed.

Lemma string_app_assoc s t u : (s +:+ t) +:+ u = s +:+ (t +:+ u).
Proof.
  induction s as [|c s IH]; [done |].
  rewrite !string_app_cons. by f_equal.
Qed.

Lemma endsWith_unfold s suffix :
  endsWith s suffix =
  String.eqb s suffix
  || match s with "" => false | String _ s' => endsWith s' suffix end.
Proof. destruct s; cbn [endsWith]; by destruct (String.eqb _ suffix). Qed.

Lemma endsWith_refl s : endsWith s s = true.
Proof. by rewrite endsWith_unfold, String.eqb_refl. Qed.

Lemma endsWith_spec s suffix : endsWith s suffix = true ↔ ∃ t, s = t +:+ suffix.
Proof.
  induction s as [|c s IH]; rewrite endsWith_unfold, orb_true_iff, String.eqb_eq.
  - split.
    + intros [<- | ?]; [by exists "" | done].
    + intros [t Ht]. left. by destruct t.
  - rewrite IH. split.
    + intros [<- | [t ->]]; [by exists "" | by exists (String c t)].
    + intros [[|d t] Ht]; [by left |].
      rewrite string_app_cons in Ht. injection Ht as -> ->. right. eauto.
Qed.


(** ** config.ts: the public path (claim C8) *)

Lemma resolvePublicPath_endsWith configured :
  endsWith (resolvePublicPath configured) "/" = true.
Proof.
  unfold resolvePublicPath.
  destruct (endsWith (orElse configured "/build/") "/") eqn:E; simpl; [done |].
  apply endsWith_spec. eauto.
Qed.

Lemma orElse_nonempty s d : s ≠ "" → orElse (Some s) d = s.
Proof. by destruct s. Qed.


(** The public path of every configuration [readConfig] returns is the
    resolved one, so it ends in a slash. *)
Lemma readConfig_publicPath `{!Collaborators} env_REMIX_ROOT cwd require fs
    remixRoot appConfig config :
  require (configFileOf env_REMIX_ROOT cwd remixRoot) = Loaded appConfig →
  readConfig env_REMIX_ROOT cwd require fs remixRoot = Ok config →
  RemixConfig.publicPath config = resolvePublicPath (AppConfig.publicPath appConfig)
  ∧ endsWith (RemixConfig.publicPath config) "/" = true.
Proof.
  intros Hrequire. unfold readConfig.
  fold (configFileOf env_REMIX_ROOT cwd remixRoot). rewrite Hrequire.
  destruct (getConventionalRoutes _ _ _) as [routes | |]; simpl; [| done | done].
  destruct (AppConfig.routes appConfig) as [[manual | |] |]; simpl;
    try done; intros [= <-]; simpl; (split; [done |]);
    apply resolvePublicPath_endsWith.
Qed.

(** ** The build orchestrator: defaults (claim C9) *)

Section BuildDefaults.
Context `{!Collaborators}.

(** C9: with the options omitted or partial, [build] takes
    mode=production and target=server for what is missing, [watch]
    takes mode=development and target=browser; the two pairs of
    defaults differ in both components. *)
Theorem build_watch_defaults (config : RemixConfig.t) :
  options (build config None)
    = mkBuildOptions BuildMode.Production BuildTarget.Server
  ∧ options (watch config None)
    = mkBuildOptions BuildMode.Development BuildTarget.Browser
  ∧ (∀ m t,
       options (build config (Some (mkPartial m t)))
       = mkBuildOptions (default BuildMode.Production m)
                        (default BuildTarget.Server t))
  ∧ (∀ m t,
       options (watch config (Some (mkPartial m t)))
       = mkBuildOptions (default BuildMode.Development m)
                        (default BuildTarget.Browser t))
  ∧ mode (options (build config None)) ≠ mode (options (watch config None))
  ∧ target (options (build config None)) ≠ target (options (watch config None)).
Proof. split_and!; done. Qed.
End BuildDefaults.

(** ** The build orchestrator: external modules (claim C5) *)

Section External.
Context `{!Collaborators}.





End External.

(** ** The build orchestrator: output file names (claim C7) *)

Lemma getOutputOptions_hashed options :
  String.eqb (mode options) BuildMode.Production
  && String.eqb (target options) BuildTarget.Browser = true
  ↔ mode options = BuildMode.Production ∧ target options = BuildTarget.Browser.
Proof. by rewrite andb_true_iff, !String.eqb_eq. Qed.

(** C7 as the code has it: entry and asset file names carry a content
    hash exactly when mode=production and target=browser, so for
    target=server they are hash-free in every mode and for target=browser
    they are hashed exactly in production; the names of shared chunks
    carry a hash for every mode and target. *)
Theorem output_names_by_mode_and_target (options : BuildOptions) :
  let out := getOutputOptions options in
  (hasHash (entryFileNames out) = true
   ↔ mode options = BuildMode.Production ∧ target options = BuildTarget.Browser)
  ∧ (hasHash (assetFileNames out) = true
     ↔ mode options = BuildMode.Production ∧ target options = BuildTarget.Browser)
  ∧ (target options = BuildTarget.Server
     → hasHash (entryFileNames out) = false ∧ hasHash (assetFileNames out) = false)
  ∧ (target options = BuildTarget.Browser
     → (hasHash (entryFileNames out) = true ↔ mode options = BuildMode.Production)
       ∧ (hasHash (assetFileNames out) = true ↔ mode options = BuildMode.Production))
  ∧ (target options = BuildTarget.Browser
     → mode options = BuildMode.Development
     → entryFileNames out = "[name].js" ∧ assetFileNames out = "[name][extname]")
  ∧ hasHash (chunkFileNames out) = true.
Proof.
  pose proof (getOutputOptions_hashed options) as Hh.
  destruct options as [m t]. simpl in *.
  destruct (String.eqb m BuildMode.Production && String.eqb t BuildTarget.Browser)
    eqn:E; simpl.
  - destruct Hh as [[-> ->] _]; [done |]. split_and!; try done.
  - assert (¬ (m = BuildMode.Production ∧ t = BuildTarget.Browser)) as Hn
      by (intros H; by apply Hh in H).
    split_and!; try done.
    + intros ->. split; (split; [done | intros ->; by destruct Hn]).
Qed.

(** C7 does not hold for every output file name: for target=server the file names of
    shared chunks carry a hash. *)
Lemma server_chunk_names_carry_hash :
  let out := getOutputOptions (mkBuildOptions BuildMode.Development BuildTarget.Server) in
  ¬ (hasHash (entryFileNames out) = false
     ∧ hasHash (assetFileNames out) = false
     ∧ hasHash (chunkFileNames out) = false).
Proof. simpl. intros (_ & _ & H). discriminate H. Qed.

Lemma output_names_witness :
  let out := getOutputOptions (mkBuildOptions BuildMode.Production BuildTarget.Browser) in
  hasHash (entryFileNames out) = true ∧ hasHash (chunkFileNames out) = true.
Proof.
  pose proof (output_names_by_mode_and_target
                (mkBuildOptions BuildMode.Production BuildTarget.Browser)) as H.
  simpl in *. destruct H as (H1 & _ & _ & _ & _ & H6). split; [|exact H6].
  by apply H1.
Defined.

(** ** config.ts: a config file that does not load (claim C10) *)

Section MissingConfig.
Context `{!Collaborators}.

(** C10: whatever makes requiring <root>/remix.config.js fail (the file
    is absent, or it exists and throws while loading), [readConfig]
    throws the same error, "Missing remix.config.js in <rootDirectory>",
    so two failing loads cannot be told apart. *)
Theorem readConfig_missing_config env_REMIX_ROOT cwd fs remixRoot
    (require : string → Required) :
  failsToLoad (require (configFileOf env_REMIX_ROOT cwd remixRoot)) →
  readConfig env_REMIX_ROOT cwd require fs remixRoot
  = Throw (JsError ("Missing remix.config.js in "
                    +:+ resolveRoot env_REMIX_ROOT cwd remixRoot))
  ∧ ∀ require' : string → Required,
      failsToLoad (require' (configFileOf env_REMIX_ROOT cwd remixRoot)) →
      readConfig env_REMIX_ROOT cwd require' fs remixRoot
      = readConfig env_REMIX_ROOT cwd require fs remixRoot.
Proof.
  assert (∀ r : string → Required,
            failsToLoad (r (configFileOf env_REMIX_ROOT cwd remixRoot)) →
            readConfig env_REMIX_ROOT cwd r fs remixRoot
            = Throw (JsError ("Missing remix.config.js in "
                              +:+ resolveRoot env_REMIX_ROOT cwd remixRoot)))
    as Hfail.
  { intros r Hr. unfold readConfig. fold (configFileOf env_REMIX_ROOT cwd remixRoot).
    by destruct Hr as [-> | [error ->]]. }
  intros Hrequire. split; [by apply Hfail |].
  intros require' Hrequire'. by rewrite !Hfail.
Qed.
End MissingConfig.

Lemma readConfig_missing_config_witness :
  readConfig (H := posix_collaborators) None "/home/me/site"
             (λ _, Raised (JsError "Unexpected token")) (λ _, []) None
  = Throw (JsError "Missing remix.config.js in /home/me/site")
  ∧ readConfig (H := posix_collaborators) None "/home/me/site"
               (λ _, NotFound) (λ _, []) None
    = Throw (JsError "Missing remix.config.js in /home/me/site").
Proof.
  pose proof (readConfig_missing_config (H := posix_collaborators)
                None "/home/me/site" (λ _, []) None
                (λ _, Raised (JsError "Unexpected token"))) as Hthm.
  destruct Hthm as [Hmsg Hsame].
  { right. by eexists. }
  split; [exact Hmsg |].
  rewrite (Hsame (λ _, NotFound)); [exact Hmsg | by left].
Defined.

(** ** routesConvention.ts: the inferred parent (claim C2) *)

Section Sorting.
Context {A : Type} (cmp : A → A → Z).

Hypothesis cmp_total : ∀ x y, (0 < cmp x y)%Z → (cmp y x ≤ 0)%Z.
Hypothesis cmp_trans : ∀ x y z, inOrder cmp x y → inOrder cmp y z → inOrder cmp x z.

Lemma sortInsert_perm x l : sortInsert cmp x l ≡ₚ x :: l.
Proof.
  induction l as [|y l IH]; simpl; [done |].
  destruct (cmp x y <=? 0)%Z; [done |].
  rewrite IH. apply Permutation_swap.
Qed.

Lemma sort_perm l : sort cmp l ≡ₚ l.
Proof.
  induction l as [|x l IH]; simpl; [done |].
  by rewrite sortInsert_perm, IH.
Qed.

Lemma sortInsert_sorted x l :
  StronglySorted (inOrder cmp) l → StronglySorted (inOrder cmp) (sortInsert cmp x l).
Proof.
  induction 1 as [|y l Hl IH Hy]; simpl.
  - repeat constructor.
  - destruct (cmp x y <=? 0)%Z eqn:E.
    + apply Z.leb_le in E. constructor; [by constructor |].
      constructor; [done |].
      eapply Forall_impl; [exact Hy |]. intros z Hz. by eapply cmp_trans.
    + apply Z.leb_gt in E. constructor; [done |].
      rewrite sortInsert_perm. constructor; [by apply cmp_total | done].
Qed.

Lemma sort_sorted l : StronglySorted (inOrder cmp) (sort cmp l).
Proof.
  induction l as [|x l IH]; simpl; [constructor | by apply sortInsert_sorted].
Qed.
End Sorting.

Lemma find_first_in_order {A} (R : relation A) (f : A → bool) l x :
  StronglySorted R l → List.find f l = Some x →
  ∀ y, y ∈ l → f y = true → y = x ∨ R x y.
Proof.
  induction 1 as [|z l Hl IH Hz]; simpl; [done |].
  destruct (f z) eqn:E.
  - intros [= ->] y [-> | Hy]%elem_of_cons _; [by left | right].
    by eapply Forall_forall in Hz.
  - intros Hfind y [-> | Hy]%elem_of_cons Hfy; [congruence | by apply IH].
Qed.

Lemma byLongestFirst_inOrder a b :
  inOrder byLongestFirst a b ↔ String.length b ≤ String.length a.
Proof. unfold inOrder, byLongestFirst. lia. Qed.

Lemma sort_byLongestFirst_sorted routeIds :
  StronglySorted (inOrder byLongestFirst) (sort byLongestFirst routeIds).
Proof.
  apply sort_sorted.
  - intros x y. unfold byLongestFirst. lia.
  - intros x y z. rewrite !byLongestFirst_inOrder. lia.
Qed.

Lemma string_app_inj_length a b s t :
  String.length a = String.length b → a +:+ s = b +:+ t → a = b.
Proof.
  revert b. induction a as [|c a IH]; intros [|d b] Hlen Heq; try done.
  rewrite !string_app_cons in Heq. injection Heq as -> Heq.
  f_equal. apply IH; [by injection Hlen | done].
Qed.

Lemma startsWith_same_length s a b :
  startsWith s (a +:+ "/") = true → startsWith s (b +:+ "/") = true →
  String.length a = String.length b → a = b.
Proof.
  rewrite !startsWith_spec. intros [t ->] [u Heq] Hlen.
  rewrite !string_app_assoc in Heq. by eapply string_app_inj_length.
Qed.

Lemma findParentRouteId_Some routeIds child a :
  findParentRouteId routeIds child = Some a
  ↔ a ∈ routeIds ∧ startsWith child (a +:+ "/") = true
    ∧ ∀ a', a' ∈ routeIds → startsWith child (a' +:+ "/") = true →
            String.length a' ≤ String.length a.
Proof.
  unfold findParentRouteId.
  pose proof (sort_byLongestFirst_sorted routeIds) as Hsorted.
  pose proof (sort_perm byLongestFirst routeIds) as Hperm.
  assert (∀ x, List.find (λ id, startsWith child (id +:+ "/"))
                         (sort byLongestFirst routeIds) = Some x →
               x ∈ routeIds ∧ startsWith child (x +:+ "/") = true
               ∧ ∀ a', a' ∈ routeIds → startsWith child (a' +:+ "/") = true →
                       String.length a' ≤ String.length x) as Hfwd.
  { intros x Hfind. pose proof Hfind as [Hin Hx]%find_some.
    apply list_elem_of_In in Hin. rewrite Hperm in Hin.
    split_and!; [done | done |].
    intros a' Ha' Hpre. rewrite <- Hperm in Ha'.
    destruct (find_first_in_order _ _ _ _ Hsorted Hfind a' Ha' Hpre) as [-> | Hord];
      [done | by apply byLongestFirst_inOrder]. }
  split; [apply Hfwd |].
  intros (Hin & Hpre & Hmax).
  destruct (List.find _ (sort byLongestFirst routeIds)) as [x|] eqn:Hfind.
  - destruct (Hfwd x eq_refl) as (Hx & Hxpre & Hxmax).
    f_equal. eapply startsWith_same_length; [done | done |].
    apply Nat.le_antisymm; [by apply Hmax | by apply Hxmax].
  - eapply find_none in Hfind; [| apply list_elem_of_In; by rewrite Hperm].
    simpl in Hfind. congruence.
Qed.

Lemma findParentRouteId_None routeIds child :
  findParentRouteId routeIds child = None
  ↔ ∀ a, a ∈ routeIds → startsWith child (a +:+ "/") = false.
Proof.
  unfold findParentRouteId.
  pose proof (sort_perm byLongestFirst routeIds) as Hperm. split.
  - intros Hfind a Ha. eapply find_none in Hfind; [exact Hfind |].
    apply list_elem_of_In. by rewrite Hperm.
  - intros Hnone.
    destruct (List.find _ (sort byLongestFirst routeIds)) as [x|] eqn:Hfind; [| done].
    apply find_some in Hfind as [Hin Hx]. apply list_elem_of_In in Hin.
    rewrite Hperm in Hin. rewrite (Hnone x Hin) in Hx. done.
Qed.

(** C2: the inferred parent of [child] is the id [a] of the set such that
    [child] starts with [a/] and no id of the set with that property is
    longer; there is none exactly when no id of the set is such a prefix;
    and among "routes", "routes/gists", "routes/gists/$username",
    "routes/about" the parent of "routes/gists/$username" is
    "routes/gists". *)
Theorem findParentRouteId_longest_prefix (routeIds : list string) (child : string) :
  (∀ a, findParentRouteId routeIds child = Some a
        ↔ a ∈ routeIds ∧ startsWith child (a +:+ "/") = true
          ∧ ∀ a', a' ∈ routeIds → startsWith child (a' +:+ "/") = true →
                  String.length a' ≤ String.length a)
  ∧ (findParentRouteId routeIds child = None
     ↔ ∀ a, a ∈ routeIds → startsWith child (a +:+ "/") = false)
  ∧ findParentRouteId
      ["routes"; "routes/gists"; "routes/gists/$username"; "routes/about"]
      "routes/gists/$username" = Some "routes/gists".
Proof.
  split_and!.
  - intros a. apply findParentRouteId_Some.
  - apply findParentRouteId_None.
  - reflexivity.
Qed.

(** ** routesConvention.ts: route paths (claim C3) *)

Lemma charBefore_app_char prev q c :
  charBefore prev (q +:+ String c "") = Some c.
Proof.
  revert prev. induction q as [|d q IH]; intros prev; [done |].
  rewrite string_app_cons. simpl. apply IH.
Qed.

Lemma string_app_inv_tail a b s : a +:+ s = b +:+ s → a = b.
Proof.
  intros Heq. eapply string_app_inj_length; [| exact Heq].
  apply (f_equal String.length) in Heq. rewrite !string_length_app in Heq. lia.
Qed.

Lemma eqb_longer_false c s t :
  String.length t ≤ String.length s → String.eqb (String c s) t = false.
Proof.
  intros Hlen. apply String.eqb_neq. intros <-. simpl in Hlen. lia.
Qed.

Lemma testIndexFrom_unfold prev s :
  testIndexFrom prev s
  = (wordBoundary prev (head_char s) && matchSlashIndexEnd s)
    || match s with "" => false | String c s' => testIndexFrom (Some c) s' end.
Proof. by destruct s. Qed.

Lemma replaceIndexEnd_unfold s :
  replaceIndexEnd s
  = if matchSlashIndexEnd s then ""
    else match s with "" => "" | String c s' => String c (replaceIndexEnd s') end.
Proof. by destruct s. Qed.

Lemma testIndexFrom_true prev q :
  from_option isWordChar false (charBefore prev q) = false →
  testIndexFrom prev (q +:+ "index") = true.
Proof.
  revert prev. induction q as [|c q IH]; intros prev Hprev.
  - rewrite string_app_nil_l, testIndexFrom_unfold. simpl in Hprev.
    unfold wordBoundary. rewrite Hprev. done.
  - rewrite string_app_cons, testIndexFrom_unfold.
    rewrite (IH (Some c)) by done. apply orb_true_r.
Qed.

Lemma testIndexFrom_inv prev s :
  testIndexFrom prev s = true →
  ∃ q, s = q +:+ "index"
       ∧ from_option isWordChar false (charBefore prev q) = false.
Proof.
  revert prev. induction s as [|c s IH]; intros prev;
    rewrite testIndexFrom_unfold, orb_true_iff, andb_true_iff.
  - intros [[_ Hm] | ?]; done.
  - intros [[Hb Hm] | Htest].
    + unfold matchSlashIndexEnd in Hm.
      apply orb_true_iff in Hm as [Hm%String.eqb_eq | Hm%String.eqb_eq].
      * exists "/". by injection Hm as -> ->.
      * exists "". injection Hm as -> ->. split; [done |].
        simpl. unfold wordBoundary in Hb. simpl in Hb.
        by destruct (from_option isWordChar false prev).
    + destruct (IH _ Htest) as (q & -> & Hq). by exists (String c q).
Qed.

Lemma replaceIndexEnd_slash_index q : replaceIndexEnd (q +:+ "/index") = q.
Proof.
  induction q as [|c q IH]; [done |].
  rewrite string_app_cons, replaceIndexEnd_unfold, IH.
  unfold matchSlashIndexEnd.
  rewrite !eqb_longer_false; [done | |]; rewrite string_length_app; simpl; lia.
Qed.

Lemma replaceIndexEnd_index q :
  endsWith q "/" = false → replaceIndexEnd (q +:+ "index") = q.
Proof.
  induction q as [|c q IH]; [done |].
  rewrite endsWith_unfold, orb_false_iff. intros [Hne Hq].
  rewrite string_app_cons, replaceIndexEnd_unfold, IH by done.
  unfold matchSlashIndexEnd.
  rewrite (eqb_longer_false _ _ "index")
    by (rewrite string_length_app; simpl; lia).
  rewrite orb_false_r.
  destruct (String.eqb (String c (q +:+ "index")) "/index") eqn:E; [| done].
  apply String.eqb_eq in E. injection E as -> E.
  destruct q as [|d q]; [done |].
  apply (f_equal String.length) in E.
  rewrite string_app_cons in E. simpl in E. rewrite string_length_app in E.
  simpl in E. lia.
Qed.

Lemma replaceAll_length c d s : String.length (replaceAll c d s) = String.length s.
Proof. induction s as [|x s IH]; simpl; [done | by rewrite IH]. Qed.

Lemma replaceAll_get c d s n :
  String.get n (replaceAll c d s)
  = (λ x, if Ascii.eqb x c then d else x) <$> String.get n s.
Proof.
  revert n. induction s as [|x s IH]; intros n; [done |].
  destruct n as [|n]; simpl; [done | apply IH].
Qed.

(** C3 as the code has it: every "$" of the id becomes ":" and every "."
    becomes "/"; a trailing "/index" is always removed; a trailing "index"
    not preceded by "/" is removed when nothing or a non-word character
    stands before it, and kept when a word character (letter, digit,
    underscore) does; an id that does not end in "index" keeps its mapped
    form. *)
Theorem createRoutePath_spec (routeId : string) :
  let path := replaceAll "." "/" (replaceAll "$" ":" routeId) in
  (∀ n, String.get n path
        = (λ c, if Ascii.eqb c "$" then ":"%char
                else if Ascii.eqb c "." then "/"%char else c)
          <$> String.get n routeId)
  ∧ (∀ q, path = q +:+ "/index" → createRoutePath routeId = q)
  ∧ (∀ q, path = q +:+ "index" → endsWith q "/" = false →
          endsInWordChar q = false → createRoutePath routeId = q)
  ∧ (∀ q, path = q +:+ "index" → endsInWordChar q = true →
          createRoutePath routeId = path)
  ∧ (endsWith path "index" = false → createRoutePath routeId = path)
  ∧ createRoutePath "gists/$username" = "gists/:username"
  ∧ createRoutePath "about.us" = "about/us"
  ∧ createRoutePath "gists/index" = "gists".
Proof.
  intros path. unfold createRoutePath. fold path.
  split_and!; try reflexivity.
  - intros n. unfold path. rewrite !replaceAll_get.
    destruct (String.get n routeId) as [c|]; simpl; [| done].
    f_equal. destruct (Ascii.eqb c "$") eqn:E; [done |].
    by destruct (Ascii.eqb c ".").
  - intros q ->.
    replace (q +:+ "/index") with ((q +:+ "/") +:+ "index")
      by by rewrite string_app_assoc.
    rewrite testIndexFrom_true by by rewrite charBefore_app_char.
    rewrite string_app_assoc. apply replaceIndexEnd_slash_index.
  - intros q -> Hslash Hword.
    rewrite testIndexFrom_true by done. by apply replaceIndexEnd_index.
  - intros q Hpath Hword.
    destruct (testIndexFrom None path) eqn:E; [| done].
    apply testIndexFrom_inv in E as (q' & Hq' & Hword').
    rewrite Hpath in Hq'. apply string_app_inv_tail in Hq' as ->.
    unfold endsInWordChar in Hword. congruence.
  - intros Hends.
    destruct (testIndexFrom None path) eqn:E; [| done].
    apply testIndexFrom_inv in E as (q' & Hq' & _).
    assert (endsWith path "index" = true) by (apply endsWith_spec; eauto).
    congruence.
Qed.

(** C3 does not hold for every id ending in "index": "reindex" ends in "index" and is left
    as it is. *)
Lemma createRoutePath_keeps_reindex :
  endsWith "reindex" "index" = true
  ∧ createRoutePath "reindex" = "reindex"
  ∧ createRoutePath "reindex" ≠ "re".
Proof. by split_and!. Qed.

Lemma createRoutePath_witness :
  createRoutePath "users.$id/index" = "users/:id"
  ∧ createRoutePath "index" = ""
  ∧ createRoutePath "my_index" = "my_index".
Proof.
  pose proof (createRoutePath_spec "users.$id/index") as (_ & H1 & _).
  pose proof (createRoutePath_spec "index") as (_ & _ & H2 & _).
  pose proof (createRoutePath_spec "my_index") as (_ & _ & _ & H3 & _).
  split_and!.
  - by apply (H1 "users/:id").
  - by apply (H2 "").
  - by apply (H3 "my_").
Defined.

(** ** JavaScript objects *)

Section JsObjFacts.
Context {V : Type}.
Implicit Types (o : JsObj V) (k : string) (v : V).

Lemma obj_set_fresh k v o : k ∉ obj_keys o → obj_set k v o = o ++ [(k, v)].
Proof.
  unfold obj_keys. induction o as [|[k' v'] o IH]; csimpl; [done |].
  rewrite not_elem_of_cons. intros [Hne Hk].
  destruct (String.eqb_spec k' k); [congruence |]. by rewrite IH.
Qed.

Lemma obj_keys_set k v o :
  obj_keys (obj_set k v o)
  = if bool_decide (k ∈ obj_keys o) then obj_keys o else obj_keys o ++ [k].
Proof.
  unfold obj_keys. induction o as [|[k' v'] o IH]; csimpl; [done |].
  destruct (String.eqb_spec k' k) as [-> | Hne]; csimpl.
  - rewrite bool_decide_eq_true_2; [done | left].
  - rewrite IH. case_bool_decide as Hk.
    + rewrite bool_decide_eq_true_2; [done | by right].
    + rewrite bool_decide_eq_false_2; [done |].
      rewrite not_elem_of_cons. split; [congruence | done].
Qed.

Lemma elem_of_obj_keys_set k k' v o :
  k' ∈ obj_keys (obj_set k v o) ↔ k' = k ∨ k' ∈ obj_keys o.
Proof.
  rewrite obj_keys_set. case_bool_decide as Hk.
  - naive_solver.
  - rewrite elem_of_app, list_elem_of_singleton. naive_solver.
Qed.

Lemma obj_get_set_eq k v o : obj_get (obj_set k v o) k = Some v.
Proof.
  induction o as [|[k' v'] o IH]; csimpl.
  - by rewrite String.eqb_refl.
  - destruct (String.eqb k' k) eqn:E; csimpl.
    + by rewrite String.eqb_refl.
    + by rewrite E.
Qed.

Lemma obj_get_set_ne k k' v o : k ≠ k' → obj_get (obj_set k v o) k' = obj_get o k'.
Proof.
  intros Hne. induction o as [|[k0 v0] o IH]; csimpl.
  - by destruct (String.eqb_spec k k').
  - destruct (String.eqb_spec k0 k) as [-> | Hk0]; csimpl.
    + by destruct (String.eqb_spec k k').
    + by rewrite IH.
Qed.

Lemma obj_get_Some_keys o k v : obj_get o k = Some v → k ∈ obj_keys o.
Proof.
  unfold obj_keys. induction o as [|[k' v'] o IH]; csimpl; [done |].
  destruct (String.eqb_spec k' k) as [-> | Hne]; [left | right; auto].
Qed.

Lemma obj_get_None_keys o k : obj_get o k = None ↔ k ∉ obj_keys o.
Proof.
  unfold obj_keys. induction o as [|[k' v'] o IH]; csimpl.
  - split; [intros _; apply not_elem_of_nil | done].
  - rewrite not_elem_of_cons.
    destruct (String.eqb_spec k' k) as [-> | Hne]; [naive_solver |].
    rewrite IH. naive_solver.
Qed.
End JsObjFacts.

(** ** config.ts: the manifest of a route tree (claim C1) *)

Lemma Route_ind_forall (P : ConfigRouteObject → Prop) :
  (∀ id path moduleFile stylesFile parentId children,
      Forall P children →
      P (Route.mk id path moduleFile stylesFile parentId children)) →
  ∀ route, P route.
Proof.
  intros Hmk. fix IH 1. intros [id path moduleFile stylesFile parentId children].
  apply Hmk. induction children as [|child children IHc]; constructor.
  - apply IH.
  - apply IHc.
Qed.

Lemma addRoute_unfold route manifest :
  addRoute route manifest
  = createRouteManifest (Route.children route)
      (obj_set (Route.id route) (rest route) manifest).
Proof. by destruct route. Qed.

Lemma createRouteManifest_cons route routes manifest :
  createRouteManifest (route :: routes) manifest
  = createRouteManifest routes (addRoute route manifest).
Proof. reflexivity. Qed.

Lemma routeIdsOf_unfold route :
  routeIdsOf route = Route.id route :: treeIds (Route.children route).
Proof. by destruct route. Qed.

Lemma routeEntries_unfold route :
  routeEntries route = (Route.id route, rest route) :: treeEntries (Route.children route).
Proof. by destruct route. Qed.

Lemma routeEdges_unfold route :
  routeEdges route
  = ⋃ ((λ child, {[ (Route.id route, Route.id child) ]} ∪ routeEdges child)
         <$> Route.children route).
Proof. by destruct route. Qed.

Lemma parentLinked_unfold parent route :
  parentLinked parent route
  = bool_decide (Route.parentId route = parent)
    && forallb (parentLinked (Some (Route.id route))) (Route.children route).
Proof. by destruct route. Qed.

Lemma treeEntries_keys routes : obj_keys (treeEntries routes) = treeIds routes.
Proof.
  unfold obj_keys, treeEntries, treeIds.
  induction routes as [|route routes IH]; csimpl; [done |].
  rewrite fmap_app, IH. f_equal. clear IH.
  induction route as [id path moduleFile stylesFile parentId children IHc]
    using Route_ind_forall.
  csimpl. f_equal.
  induction IHc as [|child children Hchild _ IH]; csimpl; [done |].
  by rewrite fmap_app, IH, Hchild.
Qed.


Lemma createRouteManifest_fresh_forall routes :
  Forall addsFresh routes →
  ∀ manifest : RouteManifest,
    NoDup (obj_keys manifest ++ treeIds routes) →
    createRouteManifest routes manifest = manifest ++ treeEntries routes.
Proof.
  induction 1 as [|route routes Hroute _ IH]; intros manifest Hnodup.
  - unfold treeEntries. simpl. by rewrite app_nil_r.
  - rewrite createRouteManifest_cons.
    unfold treeIds in Hnodup. csimpl in Hnodup. fold (treeIds routes) in Hnodup.
    rewrite app_assoc in Hnodup.
    rewrite Hroute by by apply NoDup_app in Hnodup as (? & _ & _).
    rewrite IH.
    + unfold treeEntries. csimpl. by rewrite app_assoc.
    + unfold obj_keys in *. rewrite fmap_app.
      fold (obj_keys (routeEntries route)).
      replace (obj_keys (routeEntries route)) with (routeIdsOf route); [done |].
      pose proof (treeEntries_keys [route]) as Hkeys.
      unfold treeEntries, treeIds in Hkeys. csimpl in Hkeys.
      by rewrite !app_nil_r in Hkeys.
Qed.

Lemma addRoute_fresh route : addsFresh route.
Proof.
  induction route as [id path moduleFile stylesFile parentId children IHc]
    using Route_ind_forall.
  intros manifest. rewrite addRoute_unfold, routeIdsOf_unfold, routeEntries_unfold.
  simpl. intros Hnodup.
  assert (id ∉ obj_keys manifest) as Hfresh.
  { apply NoDup_app in Hnodup as (_ & Hdisj & _). intros Hin.
    apply (Hdisj _ Hin). left. }
  rewrite (obj_set_fresh _ _ _ Hfresh).
  rewrite (createRouteManifest_fresh_forall _ IHc).
  - by rewrite <- app_assoc.
  - unfold obj_keys in *. rewrite fmap_app. csimpl. by rewrite <- app_assoc.
Qed.

Lemma createRouteManifest_fresh routes (manifest : RouteManifest) :
  NoDup (obj_keys manifest ++ treeIds routes) →
  createRouteManifest routes manifest = manifest ++ treeEntries routes.
Proof.
  apply createRouteManifest_fresh_forall, Forall_forall.
  intros route _. apply addRoute_fresh.
Qed.

Lemma manifestEdges_app (m1 m2 : RouteManifest) :
  manifestEdges (m1 ++ m2) = manifestEdges m1 ∪ manifestEdges m2.
Proof. unfold manifestEdges. by rewrite omap_app, list_to_set_app_L. Qed.

Lemma manifestEdges_cons item (m : RouteManifest) :
  manifestEdges (item :: m)
  = match entryEdge item with Some edge => {[ edge ]} | None => ∅ end
    ∪ manifestEdges m.
Proof.
  unfold manifestEdges. csimpl. destruct (entryEdge item); csimpl; [done |].
  by rewrite (left_id_L ∅ (∪)).
Qed.

Lemma routeEntries_edges route :
  ∀ parent, parentLinked parent route = true →
  manifestEdges (routeEntries route) = linkEdge parent (Route.id route) ∪ routeEdges route.
Proof.
  induction route as [id path moduleFile stylesFile parentId children IHc]
    using Route_ind_forall.
  intros parent. rewrite parentLinked_unfold, routeEntries_unfold, routeEdges_unfold.
  simpl. rewrite andb_true_iff, bool_decide_eq_true. intros [-> Hchildren].
  rewrite manifestEdges_cons. unfold entryEdge at 1. simpl.
  replace (match (λ p, (p, id)) <$> parent with
           | Some edge => {[ edge ]} | None => ∅ end)
    with (linkEdge parent id) by by destruct parent.
  f_equal.
  induction IHc as [|child children Hchild _ IH]; [done |].
  simpl in Hchildren. apply andb_true_iff in Hchildren as [Hc Hcs].
  unfold treeEntries. csimpl. fold (treeEntries children).
  rewrite manifestEdges_app, (Hchild _ Hc), (IH Hcs). done.
Qed.

Lemma treeEntries_edges routes :
  treeParentLinked routes = true →
  manifestEdges (treeEntries routes) = treeEdges routes.
Proof.
  induction routes as [|route routes IH]; [done |].
  change (treeParentLinked (route :: routes))
    with (parentLinked None route && treeParentLinked routes).
  change (treeEntries (route :: routes))
    with (routeEntries route ++ treeEntries routes).
  change (treeEdges (route :: routes)) with (routeEdges route ∪ treeEdges routes).
  rewrite andb_true_iff. intros [Hroute Hroutes].
  rewrite manifestEdges_app, (routeEntries_edges _ _ Hroute), (IH Hroutes).
  simpl. by rewrite (left_id_L ∅ (∪)).
Qed.




(** ** The build orchestrator: inputs (claim C6) *)

Lemma createRouteManifest_wellKeyed routes :
  ∀ manifest, wellKeyed manifest → wellKeyed (createRouteManifest routes manifest).
Proof.
  assert (∀ route manifest, wellKeyed manifest → wellKeyed (addRoute route manifest))
    as Hroute.
  { induction route as [id path moduleFile stylesFile parentId children IHc]
      using Route_ind_forall.
    intros manifest Hm. rewrite addRoute_unfold. simpl.
    assert (wellKeyed (obj_set id (rest (Route.mk id path moduleFile stylesFile
                                           parentId children)) manifest)) as Hset.
    { intros key route. destruct (decide (id = key)) as [-> | Hne].
      - rewrite obj_get_set_eq. by intros [= <-].
      - rewrite obj_get_set_ne by done. apply Hm. }
    revert Hset. generalize (obj_set id (rest (Route.mk id path moduleFile stylesFile
                                                 parentId children)) manifest).
    induction IHc as [|child children Hchild _ IH]; intros m Hwk; [done |].
    rewrite createRouteManifest_cons. by apply IH, Hchild. }
  induction routes as [|route routes IH]; intros manifest Hm; [done |].
  rewrite createRouteManifest_cons. by apply IH, Hroute.
Qed.

Section Inputs.
Context `{!Collaborators}.
Variables (fs : string → Dir) (config : RemixConfig.t).

Lemma addRouteInput_routeInput input key :
  addRouteInput config input key
  = match routeInput config key with
    | Some (id, file) => obj_set id file input
    | None => input
    end.
Proof.
  unfold addRouteInput, routeInput.
  destruct (obj_get _ key) as [route|]; [| done].
  by destruct (truthy (Entry.moduleFile route)).
Qed.

Lemma findFile_None dir basename exts :
  findFile fs dir basename exts = None
  ↔ ∀ ext, ext ∈ exts → existsSync (fs dir) (basename +:+ ext) = false.
Proof.
  unfold findFile. rewrite fmap_None. split.
  - intros Hfind ext Hext. eapply find_none in Hfind; [exact Hfind |].
    by apply list_elem_of_In.
  - intros Hnone.
    destruct (List.find _ exts) as [ext|] eqn:Hfind; [| done].
    apply find_some in Hfind as [Hin Hex]. apply list_elem_of_In in Hin.
    rewrite (Hnone ext Hin) in Hex. done.
Qed.

Lemma findFile_truthy dir basename exts :
  truthy (findFile fs dir basename exts) = true
  ↔ findFile fs dir basename exts ≠ None.
Proof.
  unfold findFile. destruct (List.find _ exts) as [ext|]; simpl; [| done].
  pose proof (path_resolve_nonempty [dir; basename +:+ ext]) as Hne.
  by destruct (path_resolve _).
Qed.

Lemma entryInput_throws name :
  throws (entryInput fs config name)
  ↔ findFile fs (RemixConfig.appDirectory config) name entryExts = None.
Proof.
  unfold entryInput, throws.
  destruct (truthy (findFile _ _ name entryExts)) eqn:E.
  - apply findFile_truthy in E. split; [by intros [e ?] | done].
  - split; [| eauto]. intros _.
    destruct (findFile _ _ name entryExts) eqn:Hf; [| done].
    assert (truthy (findFile fs (RemixConfig.appDirectory config) name entryExts)
            = true) as Ht by (apply findFile_truthy; congruence).
    congruence.
Qed.

Lemma entryInput_Ok name input :
  entryInput fs config name = Ok input →
  ∃ file, findFile fs (RemixConfig.appDirectory config) name entryExts = Some file
          ∧ input = [(name, file)].
Proof.
  unfold entryInput.
  destruct (truthy (findFile _ _ name entryExts)) eqn:E; [| done].
  destruct (findFile _ _ name entryExts) as [file|]; [| done].
  intros [= <-]. eauto.
Qed.

Lemma foldl_addRouteInput_keys keys : ∀ input k,
  k ∈ obj_keys (foldl (addRouteInput config) input keys)
  ↔ k ∈ obj_keys input
    ∨ ∃ key file, key ∈ keys ∧ routeInput config key = Some (k, file).
Proof.
  induction keys as [|key keys IH]; intros input k; simpl.
  - split; [auto |]. intros [? | (? & ? & []%elem_of_nil & _)]. done.
  - rewrite IH, addRouteInput_routeInput. clear IH.
    setoid_rewrite elem_of_cons.
    destruct (routeInput config key) as [[id file]|] eqn:Hkey.
    + rewrite elem_of_obj_keys_set. split.
      * intros [[-> | ?] | (key' & file' & ? & ?)]; eauto 8.
      * intros [? | (key' & file' & [-> | ?] & Hr)]; eauto 8.
        rewrite Hkey in Hr. injection Hr as -> ->. auto.
    + split.
      * intros [? | (key' & file' & ? & ?)]; eauto 8.
      * intros [? | (key' & file' & [-> | ?] & Hr)]; eauto 8.
        congruence.
Qed.

Lemma foldl_addRouteInput_get keys :
  wellKeyed (RemixConfig.routeManifest config) →
  ∀ input k,
    obj_get (foldl (addRouteInput config) input keys) k
    = match routeInput config k with
      | Some (_, file) => if bool_decide (k ∈ keys) then Some file else obj_get input k
      | None => obj_get input k
      end.
Proof.
  intros Hwk.
  assert (∀ key id file, routeInput config key = Some (id, file) → id = key) as Hid.
  { intros key id file. unfold routeInput.
    destruct (obj_get _ key) as [route|] eqn:Hget; [| done].
    destruct (truthy _); [| done]. intros [= <- _]. by apply Hwk. }
  induction keys as [|key keys IH]; intros input k; simpl.
  - by destruct (routeInput config k) as [[]|].
  - rewrite IH, addRouteInput_routeInput. clear IH.
    destruct (routeInput config k) as [[id file]|] eqn:Hk.
    + destruct (decide (k = key)) as [-> | Hne].
      * rewrite Hk. rewrite (Hid _ _ _ Hk), obj_get_set_eq.
        rewrite (bool_decide_eq_true_2 (key ∈ key :: keys)) by left.
        by case_bool_decide.
      * rewrite (bool_decide_ext (k ∈ key :: keys) (k ∈ keys))
          by (rewrite elem_of_cons; naive_solver).
        case_bool_decide; [done |].
        destruct (routeInput config key) as [[id' file']|] eqn:Hkey; [| done].
        rewrite (Hid _ _ _ Hkey). by apply obj_get_set_ne.
    + destruct (routeInput config key) as [[id' file']|] eqn:Hkey; [| done].
      rewrite (Hid _ _ _ Hkey). apply obj_get_set_ne. congruence.
Qed.

Lemma getInputOption_browser :
  getInputOption fs config BuildTarget.Browser = inputsFor fs config "entry.client".
Proof. reflexivity. Qed.

Lemma getInputOption_server :
  getInputOption fs config BuildTarget.Server = inputsFor fs config "entry.server".
Proof. reflexivity. Qed.

Lemma inputsFor_throws name :
  throws (inputsFor fs config name)
  ↔ ∀ ext, ext ∈ entryExts →
           existsSync (fs (RemixConfig.appDirectory config)) (name +:+ ext) = false.
Proof.
  rewrite <- findFile_None, <- entryInput_throws. unfold inputsFor, throws.
  destruct (entryInput fs config name) as [input | e |]; simpl.
  - split; intros [e ?]; done.
  - split; eauto.
  - split; intros [e ?]; done.
Qed.

Lemma inputsFor_message name :
  throws (inputsFor fs config name) →
  inputsFor fs config name
  = Throw (JsError ("Missing " +:+ dquote +:+ name +:+ dquote +:+ " file in "
                    +:+ RemixConfig.appDirectory config)).
Proof.
  unfold inputsFor, entryInput, throws.
  destruct (truthy (findFile _ _ name entryExts)); simpl; [| done].
  by intros [e ?].
Qed.

Lemma inputsFor_returns name :
  ¬ throws (inputsFor fs config name) → ∃ input, inputsFor fs config name = Ok input.
Proof.
  unfold inputsFor, entryInput, throws.
  destruct (truthy (findFile _ _ name entryExts)); simpl; [eauto |].
  intros Hn. destruct Hn. eauto.
Qed.

Lemma routeInput_Some key id file :
  routeInput config key = Some (id, file)
  ↔ ∃ route, obj_get (RemixConfig.routeManifest config) key = Some route
             ∧ truthy (Entry.moduleFile route) = true
             ∧ Entry.id route = id
             ∧ file = path_resolve [RemixConfig.appDirectory config;
                                    default "" (Entry.moduleFile route)].
Proof.
  unfold routeInput.
  destruct (obj_get _ key) as [route|].
  - destruct (truthy (Entry.moduleFile route)) eqn:E; split.
    + intros [= <- <-]. by exists route.
    + by intros (? & [= <-] & _ & <- & ->).
    + done.
    + intros (? & [= <-] & ? & _). congruence.
  - split; [done | by intros (? & ? & _)].
Qed.

Lemma inputsFor_Ok name input :
  inputsFor fs config name = Ok input →
  (∀ k, k ∈ obj_keys input
        ↔ k = name
          ∨ ∃ key route,
              obj_get (RemixConfig.routeManifest config) key = Some route
              ∧ truthy (Entry.moduleFile route) = true
              ∧ Entry.id route = k)
  ∧ (wellKeyed (RemixConfig.routeManifest config) →
     ∀ key route,
       obj_get (RemixConfig.routeManifest config) key = Some route →
       truthy (Entry.moduleFile route) = true →
       obj_get input key
       = Some (path_resolve [RemixConfig.appDirectory config;
                             default "" (Entry.moduleFile route)]))
  ∧ (wellKeyed (RemixConfig.routeManifest config) →
     (∀ route, obj_get (RemixConfig.routeManifest config) name = Some route →
               truthy (Entry.moduleFile route) = false) →
     obj_get input name
     = findFile fs (RemixConfig.appDirectory config) name entryExts).
Proof.
  unfold inputsFor.
  destruct (entryInput fs config name) as [entry | |] eqn:Hentry; [| done | done].
  apply entryInput_Ok in Hentry as (file & Hfile & ->). simpl.
  intros [= <-]. split_and!.
  - intros k. rewrite foldl_addRouteInput_keys. unfold obj_keys at 1. csimpl.
    rewrite list_elem_of_singleton. apply or_iff_compat_l. split.
    + intros (key & f & _ & (route & ? & ? & ? & _)%routeInput_Some). eauto.
    + intros (key & route & Hget & Ht & Hid).
      exists key, (path_resolve [RemixConfig.appDirectory config;
                                 default "" (Entry.moduleFile route)]).
      split; [by eapply obj_get_Some_keys |].
      apply routeInput_Some. eauto 6.
  - intros Hwk key route Hget Ht.
    rewrite foldl_addRouteInput_get by done.
    assert (routeInput config key
            = Some (Entry.id route,
                    path_resolve [RemixConfig.appDirectory config;
                                  default "" (Entry.moduleFile route)])) as ->
      by (apply routeInput_Some; eauto 6).
    rewrite bool_decide_eq_true_2; [done | by eapply obj_get_Some_keys].
  - intros Hwk Hfree. rewrite foldl_addRouteInput_get by done.
    assert (routeInput config name = None) as ->.
    { destruct (routeInput config name) as [[id f]|] eqn:Hr; [| done].
      apply routeInput_Some in Hr as (route & Hget & Ht & _).
      rewrite (Hfree _ Hget) in Ht. done. }
    simpl. by rewrite String.eqb_refl.
Qed.
End Inputs.

(** C6: for target=browser (entry "entry.client") and for target=server
    (entry "entry.server"), [getInputOption] throws exactly when the
    application directory holds no file named after the entry with one of
    the extensions .js, .jsx, .ts, .tsx, and then with the error "Missing
    <entry> file in <appDirectory>"; otherwise it returns an input map
    whose keys are the entry name and the ids of the manifest routes that
    have a module file.  In a manifest that stores every route under its
    own id, each such route's key maps to its resolved module file, and the
    entry name maps to the entry file found unless a route with a module
    file bears that very name. *)
Theorem getInputOption_entry_and_routes `{!Collaborators}
    (fs : string → Dir) (config : RemixConfig.t) (target name : string) :
  (target = BuildTarget.Browser ∧ name = "entry.client")
  ∨ (target = BuildTarget.Server ∧ name = "entry.server") →
  let appDirectory := RemixConfig.appDirectory config in
  let manifest := RemixConfig.routeManifest config in
  (throws (getInputOption fs config target)
   ↔ ∀ ext, ext ∈ [".js"; ".jsx"; ".ts"; ".tsx"] →
            existsSync (fs appDirectory) (name +:+ ext) = false)
  ∧ (throws (getInputOption fs config target) →
     getInputOption fs config target
     = Throw (JsError ("Missing " +:+ dquote +:+ name +:+ dquote +:+ " file in "
                       +:+ appDirectory)))
  ∧ (¬ throws (getInputOption fs config target) →
     ∃ input, getInputOption fs config target = Ok input)
  ∧ ∀ input, getInputOption fs config target = Ok input →
      (∀ k, k ∈ obj_keys input
            ↔ k = name
              ∨ ∃ key route, obj_get manifest key = Some route
                             ∧ truthy (Entry.moduleFile route) = true
                             ∧ Entry.id route = k)
      ∧ (wellKeyed manifest →
         ∀ key route, obj_get manifest key = Some route →
                      truthy (Entry.moduleFile route) = true →
                      obj_get input key
                      = Some (path_resolve [appDirectory;
                                            default "" (Entry.moduleFile route)]))
      ∧ (wellKeyed manifest →
         (∀ route, obj_get manifest name = Some route →
                   truthy (Entry.moduleFile route) = false) →
         obj_get input name = findFile fs appDirectory name entryExts).
Proof.
  intros Htarget appDirectory manifest.
  assert (getInputOption fs config target = inputsFor fs config name) as ->
    by by destruct Htarget as [[-> ->] | [-> ->]].
  split_and!.
  - apply inputsFor_throws.
  - apply inputsFor_message.
  - apply inputsFor_returns.
  - apply inputsFor_Ok.
Qed.

Lemma getInputOption_witness :
  (∃ input,
     getInputOption (H := posix_collaborators) (λ _, exampleApp) exampleConfig
                    BuildTarget.Browser = Ok input
     ∧ obj_get input "routes/gists" = Some "/site/app/routes/gists.tsx"
     ∧ obj_get input "entry.client" = Some "/site/app/entry.client.tsx")
  ∧ throws (getInputOption (H := posix_collaborators) (λ _, [("root.tsx", FsFile)])
                           exampleConfig BuildTarget.Server).
Proof.
  split.
  - destruct (getInputOption_entry_and_routes (H := posix_collaborators)
                (λ _, exampleApp) exampleConfig BuildTarget.Browser "entry.client")
      as (_ & _ & _ & Hok); [by left |].
    eexists. split; [reflexivity |].
    edestruct Hok as (_ & Hroutes & Hentry); [reflexivity |].
    assert (wellKeyed (RemixConfig.routeManifest exampleConfig)) as Hwk
      by by apply createRouteManifest_wellKeyed.
    split.
    + by apply (Hroutes Hwk "routes/gists"
                  (Entry.mk "routes/gists" "gists" (Some "routes/gists.tsx")
                            (Some "routes/gists.css") (Some "__root"))).
    + by rewrite (Hentry Hwk).
  - destruct (getInputOption_entry_and_routes (H := posix_collaborators)
                (λ _, [("root.tsx", FsFile)]) exampleConfig
                BuildTarget.Server "entry.server")
      as (Hthrows & _); [by right |].
    apply Hthrows. intros ext Hext.
    repeat (apply elem_of_cons in Hext as [-> | Hext]; [reflexivity |]).
    by apply elem_of_nil in Hext.
Defined.

(** ** routesConvention.ts: when resolution fails (claim C4) *)

Lemma FsNode_ind_forall (P : FsNode → Prop) :
  P FsFile → P FsOther →
  (∀ entries, Forall (λ entry, P entry.2) entries → P (FsDir entries)) →
  ∀ node, P node.
Proof.
  intros Hfile Hother Hdir. fix IH 1. intros [| entries |]; [done | | done].
  apply Hdir. induction entries as [|[name node] entries IHe]; constructor.
  - apply IH.
  - apply IHe.
Qed.

Section Visit.
Context {S : Type} (visitor : string → S → Result S).

Lemma visitAll_app files1 files2 st :
  visitAll visitor (files1 ++ files2) st
  = st' ← visitAll visitor files1 st; visitAll visitor files2 st'.
Proof.
  revert st. induction files1 as [|file files1 IH]; intros st; [done |].
  simpl. destruct (visitor file st) as [st' | e |]; simpl; [apply IH | done | done].
Qed.

Lemma visitNode_filesUnder node :
  ∀ file st, visitNode visitor file node st
             = visitAll visitor (filesUnder file node) st.
Proof.
  induction node as [| | entries IHe] using FsNode_ind_forall; intros file st.
  - simpl. by destruct (visitor file st).
  - done.
  - simpl.
    assert (∀ acc : Result S,
              foldl (λ (acc : Result S) (entry : string * FsNode),
                       st ← acc; visitNode visitor (relative file entry.1) entry.2 st)
                    acc entries
              = st ← acc;
                visitAll visitor
                  (concat ((λ entry : string * FsNode,
                              filesUnder (relative file entry.1) entry.2)
                             <$> entries)) st) as Hfold.
    { induction IHe as [|entry entries Hentry _ IH]; intros acc.
      - by destruct acc.
      - simpl. rewrite IH. csimpl. destruct acc as [st0 | e |]; simpl; [| done | done].
        by rewrite visitAll_app, Hentry. }
    apply (Hfold (Ok st)).
Qed.
End Visit.

Section Collect.
Context `{!Collaborators}.
Variable appDir : string.

Lemma collected_nil : collected [] [].
Proof.
  intros id. split.
  - split; [by intros ?%elem_of_nil | by intros (? & ?%elem_of_nil & _)].
  - split; [done | by intros (? & ?%elem_of_nil & _)].
Qed.

Lemma hasModule_set_eq id entry routeFiles :
  hasModule (obj_set id entry routeFiles) id = truthy (module entry).
Proof. unfold hasModule. by rewrite obj_get_set_eq. Qed.

Lemma hasModule_set_ne id id' entry routeFiles :
  id ≠ id' → hasModule (obj_set id entry routeFiles) id' = hasModule routeFiles id'.
Proof. intros Hne. unfold hasModule. by rewrite obj_get_set_ne. Qed.

Lemma collectRouteFile_throws file routeFiles :
  throws (collectRouteFile appDir file routeFiles)
  ↔ isModuleFile file = false ∧ isStylesFile file = false.
Proof.
  unfold collectRouteFile, findOrCreateFiles, throws.
  destruct (obj_get routeFiles _); destruct (isModuleFile file), (isStylesFile file);
    split; (try by intros [e ?]); (try by intros [? ?]); eauto.
Qed.

Lemma collectRouteFile_Ok files file routeFiles routeFiles' :
  collected files routeFiles →
  collectRouteFile appDir file routeFiles = Ok routeFiles' →
  collected (files ++ [file]) routeFiles'.
Proof.
  intros Hinv Hstep id. destruct (Hinv id) as [Hkeys Hmod].
  assert (∀ rf : JsObj RouteFiles,
            (∀ k, k ∈ obj_keys rf ↔ k = routeIdOfFile file ∨ k ∈ obj_keys routeFiles) →
            (∀ k, k ≠ routeIdOfFile file → hasModule rf k = hasModule routeFiles k) →
            hasModule rf (routeIdOfFile file)
            = isModuleFile file || hasModule routeFiles (routeIdOfFile file) →
            (id ∈ obj_keys rf
             ↔ ∃ f, f ∈ files ++ [file] ∧ routeIdOfFile f = id)
            ∧ (hasModule rf id = true
               ↔ ∃ f, f ∈ files ++ [file] ∧ isModuleFile f = true
                      ∧ routeIdOfFile f = id)) as Hgoal.
  { intros rf Hk Hother Hself. split.
    - rewrite Hk, Hkeys. setoid_rewrite elem_of_app.
      setoid_rewrite list_elem_of_singleton. naive_solver.
    - setoid_rewrite elem_of_app. setoid_rewrite list_elem_of_singleton.
      destruct (decide (id = routeIdOfFile file)) as [-> | Hne].
      + rewrite Hself, orb_true_iff.
        destruct (Hinv (routeIdOfFile file)) as [_ ->]. naive_solver.
      + rewrite (Hother _ Hne), Hmod. naive_solver. }
  unfold collectRouteFile, findOrCreateFiles in Hstep.
  fold (routeIdOfFile file) in Hstep.
  set (rf0 := match obj_get routeFiles (routeIdOfFile file) with
              | Some _ => routeFiles
              | None => obj_set (routeIdOfFile file) (mkRouteFiles None None) routeFiles
              end).
  assert (match obj_get routeFiles (routeIdOfFile file) with
          | Some _ => (routeIdOfFile file, routeFiles)
          | None => (routeIdOfFile file,
                     obj_set (routeIdOfFile file) (mkRouteFiles None None) routeFiles)
          end = (routeIdOfFile file, rf0)) as Hpair
    by (unfold rf0; by destruct (obj_get routeFiles _)).
  rewrite Hpair in Hstep. clear Hpair.
  assert (hasModule rf0 (routeIdOfFile file) = hasModule routeFiles (routeIdOfFile file)
          ∧ module (default (mkRouteFiles None None) (obj_get rf0 (routeIdOfFile file)))
            = module (default (mkRouteFiles None None)
                              (obj_get routeFiles (routeIdOfFile file)))) as [Hrf0 Hrf0'].
  { unfold rf0, hasModule.
    destruct (obj_get routeFiles (routeIdOfFile file)) eqn:E; [by rewrite E |].
    by rewrite obj_get_set_eq. }
  assert (∀ k, k ≠ routeIdOfFile file → hasModule rf0 k = hasModule routeFiles k)
    as Hrf0ne.
  { intros k Hne. unfold rf0.
    destruct (obj_get routeFiles (routeIdOfFile file)); [done |].
    by apply hasModule_set_ne. }
  assert (∀ k, k = routeIdOfFile file ∨ k ∈ obj_keys rf0
               ↔ k = routeIdOfFile file ∨ k ∈ obj_keys routeFiles) as Hrf0k.
  { intros k. unfold rf0.
    destruct (obj_get routeFiles (routeIdOfFile file)); [done |].
    rewrite elem_of_obj_keys_set. naive_solver. }
  destruct (isModuleFile file) eqn:Hm; [| destruct (isStylesFile file) eqn:Hs];
    [| | done]; injection Hstep as <-; apply Hgoal.
  - intros k. by rewrite elem_of_obj_keys_set, Hrf0k.
  - intros k Hne. rewrite hasModule_set_ne by done. by apply Hrf0ne.
  - by rewrite hasModule_set_eq.
  - intros k. by rewrite elem_of_obj_keys_set, Hrf0k.
  - intros k Hne. rewrite hasModule_set_ne by done. by apply Hrf0ne.
  - rewrite hasModule_set_eq. simpl. unfold hasModule. by rewrite Hrf0'.
Qed.
End Collect.

Section CollectAll.
Context `{!Collaborators}.
Variable appDir : string.

Lemma visitAll_collect files : ∀ done routeFiles,
  collected done routeFiles →
  match visitAll (collectRouteFile appDir) files routeFiles with
  | Ok routeFiles' =>
      collected (done ++ files) routeFiles'
      ∧ ∀ file, file ∈ files → isModuleFile file = true ∨ isStylesFile file = true
  | Throw _ =>
      ∃ file, file ∈ files ∧ isModuleFile file = false ∧ isStylesFile file = false
  | OutOfFuel => False
  end.
Proof.
  induction files as [|file files IH]; intros done routeFiles Hinv; simpl.
  - rewrite app_nil_r. split; [done | by intros ? ?%elem_of_nil].
  - destruct (collectRouteFile appDir file routeFiles) as [rf | e |] eqn:Hstep; simpl.
    + pose proof (collectRouteFile_Ok _ _ _ _ _ Hinv Hstep) as Hinv'.
      specialize (IH _ _ Hinv').
      assert (isModuleFile file = true ∨ isStylesFile file = true) as Hfile.
      { destruct (isModuleFile file) eqn:Hm; [by left |].
        destruct (isStylesFile file) eqn:Hs; [by right |].
        assert (throws (collectRouteFile appDir file routeFiles)) as [e He]
          by by apply collectRouteFile_throws.
        congruence. }
      destruct (visitAll _ files rf) as [rf' | e |]; [| | done].
      * rewrite <- app_assoc in IH. destruct IH as [Hc Hall]. split; [done |].
        intros f [-> | Hf]%elem_of_cons; auto.
      * destruct IH as (f & Hf & Hbad). exists f. split; [by right | done].
    + exists file. split; [left |].
      apply (collectRouteFile_throws appDir file routeFiles). by exists e.
    + unfold collectRouteFile, findOrCreateFiles in Hstep.
      by destruct (obj_get routeFiles _), (isModuleFile file), (isStylesFile file).
Qed.
End CollectAll.

(** *** The nesting loop *)

Lemma forOf_Ok {A B} (f : A → Result B) xs ys :
  forOf f xs = Ok ys → ∀ x, x ∈ xs → ∃ y, f x = Ok y.
Proof.
  revert ys. induction xs as [|x xs IH]; intros ys; simpl.
  - by intros _ ? ?%elem_of_nil.
  - destruct (f x) as [y | |] eqn:Hx; simpl; [| done | done].
    destruct (forOf f xs) as [ys' | |]; simpl; [| done | done].
    intros _ x' [-> | Hin]%elem_of_cons; [eauto | by eapply IH].
Qed.

Lemma forOf_Throw {A B} (f : A → Result B) xs e :
  forOf f xs = Throw e → ∃ x, x ∈ xs ∧ f x = Throw e.
Proof.
  induction xs as [|x xs IH]; simpl; [done |].
  destruct (f x) as [y | e' |] eqn:Hx; simpl; [| | done].
  - destruct (forOf f xs) as [ys' | e' |]; simpl; [done | | done].
    intros [= ->]. destruct IH as (x' & ? & ?); [done |].
    exists x'. split; [by right | done].
  - intros [= ->]. exists x. split; [left | done].
Qed.

Lemma forOf_OutOfFuel {A B} (f : A → Result B) xs :
  forOf f xs = OutOfFuel → ∃ x, x ∈ xs ∧ f x = OutOfFuel.
Proof.
  induction xs as [|x xs IH]; simpl; [done |].
  destruct (f x) as [y | e' |] eqn:Hx; simpl; [| done |].
  - destruct (forOf f xs) as [ys' | e' |]; simpl; [done | done |].
    intros _. destruct IH as (x' & ? & ?); [done |].
    exists x'. split; [by right | done].
  - intros _. exists x. split; [left | done].
Qed.

Section Nesting.
Context `{!Collaborators}.
Variable routeFiles : JsObj RouteFiles.

Lemma longest_ge routeIds id : id ∈ routeIds → String.length id ≤ longest routeIds.
Proof.
  induction routeIds as [|x routeIds IH]; [by intros ?%elem_of_nil |].
  intros [-> | Hin]%elem_of_cons; simpl; [lia |].
  specialize (IH Hin). lia.
Qed.

Lemma findParentRouteId_shorter routeIds child p :
  findParentRouteId routeIds child = Some p →
  p ∈ routeIds ∧ String.length p < String.length child.
Proof.
  intros (Hin & Hpre & _)%findParentRouteId_Some. split; [done |].
  apply startsWith_length in Hpre. rewrite string_length_app in Hpre.
  simpl in Hpre. lia.
Qed.

Lemma defineRoute_inv current path file styles children :
  match defineRoute current path file styles children with
  | Ok _ => ∃ nested, children (Some (createRouteId file)) = Ok nested
  | Throw e => children (Some (createRouteId file)) = Throw e
  | OutOfFuel => children (Some (createRouteId file)) = OutOfFuel
  end.
Proof.
  unfold defineRoute. destruct (children _); simpl; eauto.
Qed.

(** What one round of the loop of [defineNestedRoutes] tells about the
    child it handles. *)
Lemma defineNestedRoutes_child fuel parentRouteId current :
  ∀ child,
    child ∈ obj_keys routeFiles →
    findParentRouteId (obj_keys routeFiles) child = parentRouteId →
    match defineNestedRoutes (S fuel) routeFiles parentRouteId current with
    | Ok _ =>
        hasModule routeFiles child = true
        ∧ ∃ current' routes,
            defineNestedRoutes fuel routeFiles (Some child) current' = Ok routes
    | _ => True
    end.
Proof.
  intros child Hin Hparent.
  destruct (defineNestedRoutes (S fuel) routeFiles parentRouteId current)
    as [routes | |] eqn:Hcall; [| done | done].
  simpl in Hcall. eapply forOf_Ok in Hcall as [route Hroute];
    [| apply list_elem_of_filter; split; [exact Hparent | exact Hin]].
  simpl in Hroute. fold (hasModule routeFiles child) in Hroute.
  destruct (hasModule routeFiles child); [| done]. split; [done |].
  match type of Hroute with
  | defineRoute ?c ?p ?f ?s ?k = _ =>
      pose proof (defineRoute_inv c p f s k) as Hinv
  end.
  rewrite Hroute in Hinv. destruct Hinv as [nested Hnested]. eauto.
Qed.

Lemma defineNestedRoutes_Throw fuel : ∀ parentRouteId current e,
  defineNestedRoutes fuel routeFiles parentRouteId current = Throw e →
  ∃ id, id ∈ obj_keys routeFiles ∧ hasModule routeFiles id = false.
Proof.
  induction fuel as [|fuel IH]; intros parentRouteId current e; [done |].
  simpl. intros (child & [_ Hin]%list_elem_of_filter & Hchild)%forOf_Throw.
  simpl in Hchild. fold (hasModule routeFiles child) in Hchild.
  destruct (hasModule routeFiles child) eqn:Hmod; [| eauto].
  match type of Hchild with
  | defineRoute ?c ?p ?f ?s ?k = _ =>
      pose proof (defineRoute_inv c p f s k) as Hinv
  end.
  rewrite Hchild in Hinv. by eapply IH.
Qed.

Lemma defineNestedRoutes_fuel fuel : ∀ parentRouteId current,
  fuelNeeded (obj_keys routeFiles) parentRouteId ≤ fuel →
  defineNestedRoutes fuel routeFiles parentRouteId current ≠ OutOfFuel.
Proof.
  induction fuel as [|fuel IH]; intros parentRouteId current Hfuel.
  - destruct parentRouteId; simpl in Hfuel; lia.
  - simpl. intros (child & [Hparent Hin]%list_elem_of_filter & Hchild)%forOf_OutOfFuel.
    simpl in Hchild. fold (hasModule routeFiles child) in Hchild.
    destruct (hasModule routeFiles child); [| done].
    match type of Hchild with
    | defineRoute ?c ?p ?f ?s ?k = _ =>
        pose proof (defineRoute_inv c p f s k) as Hinv
    end.
    rewrite Hchild in Hinv. revert Hinv. apply IH.
    pose proof (longest_ge _ _ Hin) as Hlen. simpl.
    destruct parentRouteId as [p|]; simpl in Hfuel.
    + apply findParentRouteId_shorter in Hparent as [_ Hlt]. lia.
    + lia.
Qed.

Lemma defineNestedRoutes_Ok_all fuel current routes :
  defineNestedRoutes fuel routeFiles None current = Ok routes →
  ∀ id, id ∈ obj_keys routeFiles → hasModule routeFiles id = true.
Proof.
  intros Htop.
  assert (∀ n id, String.length id < n → id ∈ obj_keys routeFiles →
            hasModule routeFiles id = true
            ∧ ∃ fuel' current' routes',
                defineNestedRoutes fuel' routeFiles (Some id) current' = Ok routes')
    as Hall.
  { induction n as [|n IH]; intros id Hlen Hin; [lia |].
    destruct (findParentRouteId (obj_keys routeFiles) id) as [p|] eqn:Hparent.
    - pose proof Hparent as [Hp Hlt]%findParentRouteId_shorter.
      destruct (IH p) as (_ & fuel' & current' & routes' & Hcall); [lia | done |].
      destruct fuel' as [|fuel']; [done |].
      pose proof (defineNestedRoutes_child fuel' (Some p) current' id Hin Hparent)
        as Hchild.
      rewrite Hcall in Hchild. destruct Hchild as (? & ? & ? & ?). eauto.
    - destruct fuel as [|fuel']; [done |].
      pose proof (defineNestedRoutes_child fuel' None current id Hin Hparent)
        as Hchild.
      rewrite Htop in Hchild. destruct Hchild as (? & ? & ? & ?). eauto. }
  intros id Hin.
  destruct (Hall (S (String.length id)) id) as [? _]; [lia | done | done].
Qed.

(** The nesting loop throws exactly when some route id has no module,
    and the bound of the model is enough for it to finish. *)
Lemma defineNestedRoutes_top current :
  let result := defineNestedRoutes (nestingBound (obj_keys routeFiles))
                                   routeFiles None current in
  result ≠ OutOfFuel
  ∧ (throws result
     ↔ ∃ id, id ∈ obj_keys routeFiles ∧ hasModule routeFiles id = false).
Proof.
  intros result.
  assert (result ≠ OutOfFuel) as Hfuel by by apply defineNestedRoutes_fuel.
  split; [done |]. split.
  - intros [e He]. by eapply defineNestedRoutes_Throw.
  - intros (id & Hin & Hmod).
    destruct result as [routes | e |] eqn:Hresult; [| by exists e | done].
    eapply defineNestedRoutes_Ok_all in Hresult; [| exact Hin]. congruence.
Qed.
End Nesting.

Section Resolution.
Context `{!Collaborators}.
Variables (app : Dir) (layoutRouteId appDir : string).

Lemma findRootRouteModule_spec :
  match findRootRouteModule app layoutRouteId with
  | Ok _ => ¬ noRootModule app layoutRouteId
  | Throw _ => noRootModule app layoutRouteId
  | OutOfFuel => False
  end.
Proof.
  unfold findRootRouteModule, noRootModule.
  destruct (List.find _ _) as [name|] eqn:Hfind.
  - apply find_some in Hfind as [Hin Hex]. apply list_elem_of_In in Hin.
    apply list_elem_of_fmap in Hin as (ext & -> & Hext).
    intros Hnone. rewrite (Hnone ext Hext) in Hex. done.
  - intros ext Hext. eapply find_none in Hfind; [exact Hfind |].
    apply list_elem_of_In, list_elem_of_fmap. eauto.
Qed.

Lemma visitFiles_routeFileNames entries :
  dir_lookup app "routes" = Some (FsDir entries) →
  visitFiles entries (collectRouteFile appDir) []
  = visitAll (collectRouteFile appDir) (routeFileNames app) [].
Proof.
  intros Hdir. unfold visitFiles, routeFileNames. rewrite Hdir.
  apply visitNode_filesUnder.
Qed.

Lemma collected_missing_module routeFiles :
  collected (routeFileNames app) routeFiles →
  (∀ file, file ∈ routeFileNames app →
           isModuleFile file = true ∨ isStylesFile file = true) →
  (∃ id, id ∈ obj_keys routeFiles ∧ hasModule routeFiles id = false)
  ↔ stylesWithoutModule app.
Proof.
  intros Hc Hvalid. split.
  - intros (id & Hin & Hmod). destruct (Hc id) as [Hkeys Hhas].
    apply Hkeys in Hin as (file & Hfile & <-).
    assert (∀ other, other ∈ routeFileNames app → isModuleFile other = true →
                     routeIdOfFile other ≠ routeIdOfFile file) as Hnone.
    { intros other Hother Hm Heq.
      assert (hasModule routeFiles (routeIdOfFile file) = true)
        by (apply Hhas; eauto).
      congruence. }
    exists file. destruct (isModuleFile file) eqn:Hm.
    + by destruct (Hnone file Hfile Hm).
    + destruct (Hvalid file Hfile) as [? | Hs]; [congruence | done].
  - intros (file & Hfile & Hm & Hs & Hnone). exists (routeIdOfFile file).
    destruct (Hc (routeIdOfFile file)) as [Hkeys Hhas]. split.
    + apply Hkeys. eauto.
    + apply not_true_is_false. intros E.
      apply Hhas in E as (other & Hother & Hom & Heq).
      by destruct (Hnone other Hother Hom).
Qed.

Lemma defineConventionalRoutes_outcome :
  match defineConventionalRoutes app layoutRouteId appDir with
  | Ok _ =>
      ¬ routesUnreadable app ∧ ¬ invalidRouteFile app ∧ ¬ stylesWithoutModule app
      ∧ ¬ noRootModule app layoutRouteId
  | Throw _ =>
      routesUnreadable app ∨ invalidRouteFile app ∨ stylesWithoutModule app ∨ noRootModule app layoutRouteId
  | OutOfFuel => False
  end.
Proof.
  unfold defineConventionalRoutes, readdirSync.
  destruct (dir_lookup app "routes") as [[| entries |]|] eqn:Hdir; simpl;
    try (left; intros entries; congruence).
  assert (¬ routesUnreadable app) as Hreadable by (intros Hu; by eapply Hu).
  rewrite (visitFiles_routeFileNames _ Hdir).
  pose proof (visitAll_collect appDir (routeFileNames app) [] [] (collected_nil))
    as Hscan.
  destruct (visitAll (collectRouteFile appDir) (routeFileNames app) [])
    as [routeFiles | e |]; simpl; [| by right; left | done].
  destruct Hscan as [Hc Hvalid]. simpl in Hc.
  assert (¬ invalidRouteFile app) as Hvalid'.
  { intros (file & Hfile & Hm & Hs).
    destruct (Hvalid file Hfile); congruence. }
  unfold defineLayoutRoutes, defineRoutes.
  pose proof (defineNestedRoutes_top routeFiles None) as [Hfuel Hthrows].
  rewrite (collected_missing_module _ Hc Hvalid) in Hthrows.
  destruct (defineNestedRoutes _ routeFiles None None) as [routes | e |];
    simpl; [| | done].
  - assert (¬ stylesWithoutModule app) as Hstyles.
    { intros Hs. apply Hthrows in Hs as [e ?]. done. }
    pose proof findRootRouteModule_spec as Hroot.
    destruct (findRootRouteModule app layoutRouteId); simpl; [done | | done].
    do 3 right. done.
  - do 2 right. left. apply Hthrows. by exists e.
Qed.
End Resolution.

(** C4 as the code has it: conventional route resolution throws exactly
    when the routes subdirectory cannot be listed (it is missing or not a
    directory), or a regular file below it is neither a module file nor a
    styles file, or some route id has a styles file but no module file, or
    none of <layout>.js, <layout>.jsx, <layout>.tsx exists in the source
    directory; in every other case it returns a route tree. *)
Theorem defineConventionalRoutes_throws_iff `{!Collaborators}
    (app : Dir) (layoutRouteId appDir : string) :
  (throws (defineConventionalRoutes app layoutRouteId appDir)
   ↔ routesUnreadable app ∨ invalidRouteFile app ∨ stylesWithoutModule app
     ∨ noRootModule app layoutRouteId)
  ∧ (¬ throws (defineConventionalRoutes app layoutRouteId appDir)
     → ∃ routes, defineConventionalRoutes app layoutRouteId appDir = Ok routes).
Proof.
  pose proof (defineConventionalRoutes_outcome app layoutRouteId appDir) as Hout.
  unfold throws.
  destruct (defineConventionalRoutes app layoutRouteId appDir) as [routes | e |];
    [| | done].
  - split; [| eauto]. split; [by intros [e ?] | tauto].
  - split; [split; eauto |]. intros Hn. destruct Hn. eauto.
Qed.

(** The bound of [defineNestedRoutes] is never reached. *)
Lemma defineConventionalRoutes_terminates `{!Collaborators}
    (app : Dir) (layoutRouteId appDir : string) :
  defineConventionalRoutes app layoutRouteId appDir ≠ OutOfFuel.
Proof.
  pose proof (defineConventionalRoutes_outcome app layoutRouteId appDir) as Hout.
  by destruct (defineConventionalRoutes app layoutRouteId appDir).
Qed.

(** C4 does not hold as an equivalence: with a root layout module and no
    routes directory, resolution throws although no file is unrecognized,
    no styles file lacks a module and the root module exists. *)
Lemma missing_routes_directory_throws :
  let app : Dir := [("root.tsx", FsFile)] in
  throws (defineConventionalRoutes (H := posix_collaborators) app "root" "/site/app")
  ∧ ¬ (invalidRouteFile (H := posix_collaborators) app
       ∨ stylesWithoutModule (H := posix_collaborators) app
       ∨ noRootModule app "root").
Proof.
  split.
  - by eexists.
  - intros [(file & []%elem_of_nil & _) | [(file & []%elem_of_nil & _) | Hroot]].
    specialize (Hroot "tsx"). discriminate Hroot. set_solver.
Qed.

Lemma defineConventionalRoutes_witness :
  throws (defineConventionalRoutes (H := posix_collaborators)
            [("root.tsx", FsFile); ("routes", FsDir [("gists.css", FsFile)])]
            "root" "/site/app")
  ∧ ∃ routes, defineConventionalRoutes (H := posix_collaborators) exampleApp
                "root" "/site/app" = Ok routes.
Proof.
  split.
  - apply (defineConventionalRoutes_throws_iff (H := posix_collaborators)).
    do 2 right. left. exists "gists.css". split; [left |].
    split; [reflexivity |]. split; [reflexivity |].
    intros other [-> | []%elem_of_nil]%elem_of_cons. discriminate.
  - apply (defineConventionalRoutes_throws_iff (H := posix_collaborators)).
    intros [e He]. discriminate He.
Defined.

(** ** The end-to-end example of the specification *)

(** A source tree with root.tsx, routes/index.tsx, routes/gists.tsx (and
    its styles) and routes/gists/$username.tsx resolves to the root layout
    with three routes below it, and its manifest has four entries. *)
Example resolve_example :
  let resolved := defineConventionalRoutes (H := posix_collaborators)
                    exampleApp "root" "/site/app" in
  resolved = Ok (take 1 exampleTree)
  ∧ obj_keys (createRouteManifest (take 1 exampleTree) [])
    = ["__root"; "routes/index"; "routes/gists"; "routes/gists/$username"].
Proof. split; reflexivity. Qed.

(* ================================================================== *)
(** * Part III: further properties of the code                         *)
(* ================================================================== *)

(** ** config.ts: what a manifest holds *)

Lemma setAll_app manifest items1 items2 :
  setAll manifest (items1 ++ items2) = setAll (setAll manifest items1) items2.
Proof. unfold setAll. apply foldl_app. Qed.

Lemma createRouteManifest_setAll routes :
  ∀ manifest, createRouteManifest routes manifest = setAll manifest (treeEntries routes).
Proof.
  assert (∀ route manifest,
            addRoute route manifest = setAll manifest (routeEntries route)) as Hroute.
  { induction route as [id path moduleFile stylesFile parentId children IHc]
      using Route_ind_forall.
    intros manifest. rewrite addRoute_unfold, routeEntries_unfold. simpl.
    change (setAll manifest ((id, ?e) :: ?l)) with (setAll (obj_set id e manifest) l).
    generalize (obj_set id (rest (Route.mk id path moduleFile stylesFile parentId
                                           children)) manifest).
    induction IHc as [|child children Hchild _ IH]; intros m; [done |].
    rewrite createRouteManifest_cons, IH, Hchild.
    change (treeEntries (child :: children))
      with (routeEntries child ++ treeEntries children).
    by rewrite setAll_app. }
  induction routes as [|route routes IH]; intros manifest; [done |].
  rewrite createRouteManifest_cons, IH, Hroute.
  change (treeEntries (route :: routes))
    with (routeEntries route ++ treeEntries routes).
  by rewrite setAll_app.
Qed.

Lemma setAll_get items : ∀ (manifest : RouteManifest) key,
  obj_get (setAll manifest items) key
  = match lastEntry key items with
    | Some entry => Some entry
    | None => obj_get manifest key
    end.
Proof.
  induction items as [|[k entry] items IH]; intros manifest key; [done |].
  change (setAll manifest ((k, entry) :: items))
    with (setAll (obj_set k entry manifest) items).
  rewrite IH. simpl. destruct (lastEntry key items); [done |].
  destruct (String.eqb_spec k key) as [-> | Hne].
  - apply obj_get_set_eq.
  - by apply obj_get_set_ne.
Qed.


Lemma obj_set_NoDup {V} k (v : V) o : NoDup (obj_keys o) → NoDup (obj_keys (obj_set k v o)).
Proof.
  intros Hnodup. rewrite obj_keys_set. case_bool_decide as Hin; [done |].
  apply NoDup_app. split_and!; [done | | apply NoDup_singleton].
  intros x Hx ->%list_elem_of_singleton. done.
Qed.


Lemma lastEntry_app key items1 items2 :
  lastEntry key (items1 ++ items2)
  = match lastEntry key items2 with
    | Some entry => Some entry
    | None => lastEntry key items1
    end.
Proof.
  induction items1 as [|[k entry] items1 IH]; simpl.
  - by destruct (lastEntry key items2).
  - rewrite IH. by destruct (lastEntry key items2).
Qed.

Lemma lastEntry_is_Some key items :
  key ∈ items.*1 → is_Some (lastEntry key items).
Proof.
  induction items as [|[k entry] items IH]; csimpl; [by intros ?%elem_of_nil |].
  intros [-> | Hin]%elem_of_cons.
  - destruct (lastEntry k items); [done |]. by rewrite String.eqb_refl.
  - destruct (IH Hin) as [e ->]. done.
Qed.

Lemma treeEntries_app routes1 routes2 :
  treeEntries (routes1 ++ routes2) = treeEntries routes1 ++ treeEntries routes2.
Proof. unfold treeEntries. by rewrite fmap_app, concat_app. Qed.


(** X2: when an id occurs more than once in a tree, the manifest keeps the
    route met last in depth-first order: looking an id up gives the entry
    of its last occurrence.  So in [earlier ++ later] a route of [later]
    replaces every route of [earlier] that has its id. *)
Theorem manifest_last_writer_wins (routes : list ConfigRouteObject) (key : string) :
  obj_get (createRouteManifest routes []) key = lastEntry key (treeEntries routes)
  ∧ ∀ earlier later,
      routes = earlier ++ later → key ∈ treeIds later →
      obj_get (createRouteManifest routes []) key
      = obj_get (createRouteManifest later []) key.
Proof.
  assert (∀ rs, obj_get (createRouteManifest rs []) key
                = lastEntry key (treeEntries rs)) as Hlast.
  { intros rs. rewrite createRouteManifest_setAll, setAll_get.
    by destruct (lastEntry key (treeEntries rs)). }
  split; [apply Hlast |].
  intros earlier later -> Hin. rewrite !Hlast, treeEntries_app, lastEntry_app.
  rewrite <- treeEntries_keys in Hin.
  by destruct (lastEntry_is_Some _ _ Hin) as [entry ->].
Qed.

Lemma manifest_last_writer_wins_witness :
  let conventional := [Route.mk "routes/about" "about" (Some "routes/about.tsx")
                         None (Some "__root") []] in
  let manual := [Route.mk "routes/about" "info" (Some "pages/info.tsx")
                   None None []] in
  obj_get (createRouteManifest (conventional ++ manual) []) "routes/about"
  = Some (Entry.mk "routes/about" "info" (Some "pages/info.tsx") None None).
Proof.
  intros conventional manual.
  destruct (manifest_last_writer_wins (conventional ++ manual) "routes/about")
    as [_ Hlater].
  rewrite (Hlater conventional manual); [reflexivity | reflexivity |].
  unfold treeIds, manual. simpl. left.
Defined.

(** ** routesConvention.ts: more on route paths and parents *)

Lemma replaceIndexEnd_prefix s : ∃ t, s = replaceIndexEnd s +:+ t.
Proof.
  induction s as [|c s [t IH]]; [by exists "" |].
  rewrite replaceIndexEnd_unfold.
  destruct (matchSlashIndexEnd (String c s)).
  - by eexists.
  - exists t. rewrite string_app_cons. by f_equal.
Qed.

Lemma string_get_app_Some s t n c :
  String.get n s = Some c → String.get n (s +:+ t) = Some c.
Proof.
  revert n. induction s as [|d s IH]; intros n; [done |].
  rewrite string_app_cons. destruct n as [|n]; simpl; [done | apply IH].
Qed.

(** X3: the path of a route is a prefix of its id with "$" and "." mapped
    (only a tail is ever cut off), so it is never longer than the id and
    holds no "$" and no "." *)
Theorem createRoutePath_prefix_of_mapped_id (routeId : string) :
  (∃ tail, replaceAll "." "/" (replaceAll "$" ":" routeId)
           = createRoutePath routeId +:+ tail)
  ∧ String.length (createRoutePath routeId) ≤ String.length routeId
  ∧ ∀ n, String.get n (createRoutePath routeId) ≠ Some "$"%char
         ∧ String.get n (createRoutePath routeId) ≠ Some "."%char.
Proof.
  assert (∃ tail, replaceAll "." "/" (replaceAll "$" ":" routeId)
                  = createRoutePath routeId +:+ tail) as [tail Htail].
  { unfold createRoutePath. destruct (testIndexFrom None _).
    - apply replaceIndexEnd_prefix.
    - exists "". by rewrite string_app_nil_r. }
  split_and!; [by exists tail | |].
  - apply (f_equal String.length) in Htail.
    rewrite !replaceAll_length, string_length_app in Htail. lia.
  - intros n.
    assert (∀ c, String.get n (createRoutePath routeId) = Some c →
                 c ≠ "$"%char ∧ c ≠ "."%char) as Hc.
    { intros c Hget. apply (string_get_app_Some _ tail) in Hget.
      rewrite <- Htail, !replaceAll_get in Hget.
      destruct (String.get n routeId) as [x|]; [| done]. simpl in Hget.
      injection Hget as <-.
      destruct (Ascii.eqb_spec x "$") as [-> | Hx]; [done |]. simpl.
      destruct (Ascii.eqb_spec x ".") as [-> | Hx']; done. }
    split; intros Hget; by destruct (Hc _ Hget).
Qed.

(** X4: an inferred parent is one of the ids, strictly shorter than the
    child, and ends at a path-segment boundary of the child: the child is
    the parent followed by "/" and more.  An id that merely continues
    another id without a slash (as "foo-bar" continues "foo") is never its
    child, and no id is its own parent. *)
Theorem findParentRouteId_segment_boundary (routeIds : list string)
    (child parent : string) :
  (findParentRouteId routeIds child = Some parent →
   parent ∈ routeIds
   ∧ (∃ rest, child = parent +:+ "/" +:+ rest)
   ∧ String.length parent < String.length child)
  ∧ (∀ more, startsWith more "/" = false →
             findParentRouteId routeIds (parent +:+ more) ≠ Some parent)
  ∧ findParentRouteId routeIds child ≠ Some child.
Proof.
  assert (∀ c p, findParentRouteId routeIds c = Some p →
                 p ∈ routeIds ∧ (∃ rest, c = p +:+ "/" +:+ rest)
                 ∧ String.length p < String.length c) as Hsome.
  { intros c p (Hin & Hpre & _)%findParentRouteId_Some. split_and!; [done | |].
    - apply startsWith_spec in Hpre as [rest ->]. exists rest.
      by rewrite string_app_assoc.
    - apply startsWith_length in Hpre. rewrite string_length_app in Hpre.
      simpl in Hpre. lia. }
  split_and!.
  - apply Hsome.
  - intros more Hmore (_ & [rest Hrest] & _)%Hsome.
    assert (more = "/" +:+ rest) as ->.
    { eapply (inj (String.app parent)). exact Hrest. }
    unfold startsWith in Hmore. simpl in Hmore. by destruct rest.
  - intros (_ & _ & Hlt)%Hsome. lia.
Qed.

Lemma findParentRouteId_segment_boundary_witness :
  findParentRouteId ["foo"; "foo/bar"] "foo-bar" ≠ Some "foo"
  ∧ String.length "foo/bar" < String.length "foo/bar/baz".
Proof.
  destruct (findParentRouteId_segment_boundary ["foo"; "foo/bar"] "foo/bar/baz" "foo")
    as (_ & Hnot & _).
  destruct (findParentRouteId_segment_boundary ["foo"; "foo/bar"] "foo/bar/baz"
              "foo/bar") as (Hsome & _ & _).
  split; [by apply (Hnot "-bar") | by apply Hsome].
Defined.

(** ** The build orchestrator: the package a chunk belongs to *)

Lemma includes_unfold s sub :
  includes s sub
  = startsWith s sub
    || match s with "" => false | String _ s' => includes s' sub end.
Proof. destruct s; cbn [includes]; by destruct (startsWith _ sub). Qed.

Lemma noSlash_cons c piece :
  noSlash (String c piece) = true ↔ c ≠ "/"%char ∧ noSlash piece = true.
Proof.
  unfold noSlash. rewrite includes_unfold, startsWith_cons, startsWith_nil.
  rewrite andb_true_r, negb_orb, andb_true_iff, negb_true_iff, bool_decide_eq_false.
  split; intros [? ?]; split; auto.
Qed.

Lemma split_nonempty sep s : split sep s ≠ [].
Proof.
  destruct s as [|c s]; simpl; [done |].
  destruct (Ascii.eqb c sep); [done |]. by destruct (split sep s).
Qed.

Lemma split_noSlash piece : noSlash piece = true → split "/" piece = [piece].
Proof.
  induction piece as [|c piece IH]; [done |].
  intros [Hc Hpiece]%noSlash_cons. simpl.
  destruct (Ascii.eqb_spec c "/"); [done |]. by rewrite IH.
Qed.

Lemma split_piece_sep piece rest :
  noSlash piece = true →
  split "/" (piece +:+ "/" +:+ rest) = piece :: split "/" rest.
Proof.
  induction piece as [|c piece IH]; [done |].
  intros [Hc Hpiece]%noSlash_cons. rewrite string_app_cons. simpl.
  destruct (Ascii.eqb_spec c "/"); [done |]. by rewrite IH.
Qed.

Lemma split_join pieces :
  pieces ≠ [] → Forall (λ piece, noSlash piece = true) pieces →
  split "/" (join "/" pieces) = pieces.
Proof.
  intros Hne Hall. induction Hall as [|piece pieces Hpiece Hall IH]; [done |].
  destruct pieces as [|next pieces]; [by apply split_noSlash |].
  change (join "/" (piece :: next :: pieces))
    with (piece +:+ "/" +:+ join "/" (next :: pieces)).
  rewrite split_piece_sep by done. by rewrite IH.
Qed.

Lemma lastIndexOf_None x pieces : lastIndexOf x pieces = None ↔ x ∉ pieces.
Proof.
  induction pieces as [|piece pieces IH]; simpl.
  - split; [intros _; apply not_elem_of_nil | done].
  - rewrite not_elem_of_cons. destruct (lastIndexOf x pieces) as [i|].
    + split; [done |]. intros [_ Hin]. by apply IH in Hin.
    + destruct (String.eqb_spec piece x) as [-> | Hne].
      * split; [done | by intros [? _]].
      * split; [| done]. intros _. split; [congruence | by apply IH].
Qed.

Lemma lastIndexOf_last x before after :
  x ∉ after → lastIndexOf x (before ++ x :: after) = Some (length before).
Proof.
  intros Hnot%lastIndexOf_None.
  induction before as [|piece before IH]; simpl.
  - by rewrite Hnot, String.eqb_refl.
  - by rewrite IH.
Qed.

(** X5: the package of a module id is read off the segment after the
    LAST "node_modules" segment of its path: that segment itself, or, when
    it is a scope ("@scope") followed by a further segment, "__scope/name"
    with the "@" replaced.  An id with no "node_modules" segment, or with
    it as the last segment, has no package. *)
Theorem getNpmPackageName_after_last_node_modules
    (before after : list string) (pkg : string) :
  Forall (λ piece, noSlash piece = true) (before ++ pkg :: after) →
  "node_modules" ∉ pkg :: after →
  getNpmPackageName (join "/" (before ++ "node_modules" :: pkg :: after))
  = Some (match after with
          | name :: _ => if startsWith pkg "@"
                         then replaceFirst "@" "__" pkg +:+ "/" +:+ name
                         else pkg
          | [] => pkg
          end)
  ∧ getNpmPackageName (join "/" (before ++ ["node_modules"])) = None
  ∧ (∀ id, "node_modules" ∉ split "/" id → getNpmPackageName id = None).
Proof.
  intros Hall Hlast.
  assert (Forall (λ piece, noSlash piece = true) before) as Hbefore
    by by apply Forall_app in Hall as [? _].
  split_and!.
  - unfold getNpmPackageName. rewrite split_join.
    + rewrite lastIndexOf_last by done.
      assert ((length before + 1 <? length (before ++ "node_modules" :: pkg :: after))
              = true) as -> by (apply Nat.ltb_lt; rewrite length_app; simpl; lia).
      replace (length before + 1) with (length (before ++ ["node_modules"]) + 0)
        by (rewrite length_app; simpl; lia).
      replace (before ++ "node_modules" :: pkg :: after)
        with ((before ++ ["node_modules"]) ++ pkg :: after)
        by by rewrite <- app_assoc.
      rewrite lookup_app_r, Nat.add_0_r, Nat.sub_diag by lia. simpl.
      destruct after as [|name after]; simpl.
      * replace (length before + 2 <? length ((before ++ ["node_modules"]) ++ [pkg]))
          with false; [by rewrite andb_false_r |].
        symmetry. apply Nat.ltb_ge. rewrite !length_app. simpl. lia.
      * replace (length before + 2
                 <? length ((before ++ ["node_modules"]) ++ pkg :: name :: after))
          with true
          by (symmetry; apply Nat.ltb_lt; rewrite !length_app; simpl; lia).
        rewrite andb_true_r. destruct (startsWith pkg "@"); [| done].
        replace (length before + 2)
          with (length ((before ++ ["node_modules"]) ++ [pkg]) + 0)
          by (rewrite !length_app; simpl; lia).
        replace ((before ++ ["node_modules"]) ++ pkg :: name :: after)
          with (((before ++ ["node_modules"]) ++ [pkg]) ++ name :: after)
          by by rewrite <- !app_assoc.
        by rewrite lookup_app_r, Nat.add_0_r, Nat.sub_diag by lia.
    + by destruct before.
    + apply Forall_app in Hall as [? Hrest]. apply Forall_app. split; [done |].
      constructor; [done | exact Hrest].
  - unfold getNpmPackageName. rewrite split_join.
    + rewrite lastIndexOf_last by apply not_elem_of_nil.
      replace (length before + 1 <? length (before ++ ["node_modules"])) with false;
        [done |].
      symmetry. apply Nat.ltb_ge. rewrite length_app. simpl. lia.
    + by destruct before.
    + apply Forall_app. split; [done |]. by constructor.
  - intros id Hnone%lastIndexOf_None. unfold getNpmPackageName. by rewrite Hnone.
Qed.

Lemma getNpmPackageName_witness :
  getNpmPackageName "/site/node_modules/a/node_modules/@scope/name/index.js"
  = Some "__scope/name"
  ∧ getNpmPackageName "/site/node_modules/react/index.js" = Some "react".
Proof.
  split.
  - apply (getNpmPackageName_after_last_node_modules
             [""; "site"; "node_modules"; "a"] ["name"; "index.js"] "@scope").
    + by repeat constructor.
    + by apply (bool_decide_unpack _).
  - apply (getNpmPackageName_after_last_node_modules
             [""; "site"] ["index.js"] "react").
    + by repeat constructor.
    + by apply (bool_decide_unpack _).
Defined.

(** ** The build orchestrator: which modules may have side effects *)

Lemma testNodeModulesFrom_unfold prev s :
  testNodeModulesFrom prev s
  = (wordBoundary prev (head_char s) && matchNodeModules s)
    || match s with "" => false | String c s' => testNodeModulesFrom (Some c) s' end.
Proof. by destruct s. Qed.

Lemma matchNodeModules_spec s :
  matchNodeModules s = true
  ↔ ∃ after, s = "node_modules" +:+ after
             ∧ from_option isWordChar false (head_char after) = false.
Proof.
  unfold matchNodeModules. rewrite andb_true_iff, startsWith_spec. split.
  - intros [[after ->] Hb]. exists after. split; [done |].
    change (slice 12 ("node_modules" +:+ after)) with after in Hb.
    unfold wordBoundary in Hb. simpl in Hb.
    by destruct (from_option isWordChar false (head_char after)).
  - intros (after & -> & Hafter). split; [by exists after |].
    change (slice 12 ("node_modules" +:+ after)) with after.
    unfold wordBoundary. simpl. by rewrite Hafter.
Qed.

Lemma testNodeModulesFrom_spec s : ∀ prev,
  testNodeModulesFrom prev s = true
  ↔ ∃ before after,
      s = before +:+ "node_modules" +:+ after
      ∧ from_option isWordChar false (charBefore prev before) = false
      ∧ from_option isWordChar false (head_char after) = false.
Proof.
  induction s as [|c s IH]; intros prev;
    rewrite testNodeModulesFrom_unfold, orb_true_iff, andb_true_iff.
  - split.
    + intros [[_ (after & ? & _)%matchNodeModules_spec] | ?]; done.
    + intros (before & after & Heq & _). by destruct before.
  - rewrite IH, matchNodeModules_spec. split.
    + intros [[Hb (after & Heq & Hafter)] | (before & after & -> & Hbefore & Hafter)].
      * exists "", after. split_and!; [done | | done].
        rewrite Heq in Hb. unfold wordBoundary in Hb. simpl in Hb. simpl.
        by destruct (from_option isWordChar false prev).
      * exists (String c before), after. by rewrite string_app_cons.
    + intros ([|d before] & after & Heq & Hbefore & Hafter).
      * left. rewrite string_app_nil_l in Heq. split; [| eauto].
        rewrite Heq. unfold wordBoundary. simpl in *. by rewrite Hbefore.
      * right. rewrite string_app_cons in Heq. injection Heq as -> ->.
        exists before, after. done.
Qed.

(** X6: tree shaking is aggressive for target=browser only: there a module
    may have side effects exactly when its id holds "node_modules" as a
    whole word (no letter, digit or underscore directly before or after),
    in particular whenever "node_modules" is a path segment, and never when
    the id does not mention it; for every other target the option is
    absent. *)
Theorem treeshake_side_effects_in_node_modules :
  (∃ moduleSideEffects,
     getTreeshakeOption BuildTarget.Browser = Some moduleSideEffects
     ∧ (∀ id, moduleSideEffects id = true
              ↔ ∃ before after,
                  id = before +:+ "node_modules" +:+ after
                  ∧ endsInWordChar before = false
                  ∧ from_option isWordChar false (head_char after) = false)
     ∧ (∀ dir file, moduleSideEffects (dir +:+ "/node_modules/" +:+ file) = true)
     ∧ (∀ id, includes id "node_modules" = false → moduleSideEffects id = false))
  ∧ (∀ target, target ≠ BuildTarget.Browser → getTreeshakeOption target = None).
Proof.
  split.
  - eexists. split; [reflexivity |]. split_and!.
    + intros id. apply testNodeModulesFrom_spec.
    + intros dir file. apply testNodeModulesFrom_spec.
      exists (dir +:+ "/"), ("/" +:+ file). split_and!; [| | done].
      * by rewrite !string_app_assoc.
      * by rewrite charBefore_app_char.
    + intros id Hnot. apply not_true_is_false.
      intros (before & after & -> & _)%testNodeModulesFrom_spec.
      assert (includes (before +:+ "node_modules" +:+ after) "node_modules" = true)
        as Hin.
      { clear Hnot. induction before as [|c before IH].
        - rewrite string_app_nil_l, includes_unfold.
          apply orb_true_iff. left. apply startsWith_spec. eauto.
        - rewrite string_app_cons, includes_unfold, IH. apply orb_true_r. }
      congruence.
  - intros target Hne. unfold getTreeshakeOption.
    by destruct (String.eqb_spec target BuildTarget.Browser).
Qed.

(** ** The build orchestrator: the plugin pipeline *)

Lemma getBuildPlugins_shape serverBuildDir options :
  getBuildPlugins serverBuildDir options
  = [RemixInputs (target options)]
    ++ (if String.eqb (target options) BuildTarget.Browser
        then [Alias "@remix-run/react" "@remix-run/react/esm"] else [])
    ++ [ClientServer (target options); Mdx; RouteModules (target options); Json;
        Img (target options); Css (target options) (mode options);
        Url (target options); Babel;
        NodeResolve (String.eqb (target options) BuildTarget.Browser)
                    (negb (String.eqb (target options) BuildTarget.Browser));
        Commonjs; Replace (mode options)]
    ++ (if String.eqb (mode options) BuildMode.Production then [Terser] else [])
    ++ [ManifestPlugin serverBuildDir
          (if String.eqb (target options) BuildTarget.Browser
           then AssetManifestFilename else ServerManifestFilename)].
Proof.
  unfold getBuildPlugins.
  destruct (String.eqb (target options) BuildTarget.Browser),
    (String.eqb (mode options) BuildMode.Production); reflexivity.
Qed.

Ltac in_list :=
  repeat (rewrite ?elem_of_app, ?elem_of_cons, ?elem_of_nil).

(** X7: in every plugin pipeline the input supplier comes first and the
    manifest emitter last, writing into the server build directory the
    file "asset-manifest.json" for target=browser and
    "server-manifest.json" otherwise; the minifier is part of it exactly
    in production mode and then directly before the manifest emitter; the
    alias to the browser runtime is part of it exactly for target=browser;
    and transpilation always precedes module resolution. *)
Theorem plugin_pipeline_by_mode_and_target (serverBuildDir : string)
    (options : BuildOptions) :
  let plugins := getBuildPlugins serverBuildDir options in
  head plugins = Some (RemixInputs (target options))
  ∧ last plugins
    = Some (ManifestPlugin serverBuildDir
              (if bool_decide (target options = BuildTarget.Browser)
               then "asset-manifest.json" else "server-manifest.json"))
  ∧ (Terser ∈ plugins ↔ mode options = BuildMode.Production)
  ∧ (mode options = BuildMode.Production →
     ∃ front manifest, plugins = front ++ [Terser; manifest])
  ∧ (Alias "@remix-run/react" "@remix-run/react/esm" ∈ plugins
     ↔ target options = BuildTarget.Browser)
  ∧ (∃ front middle back,
       plugins = front ++ [Babel] ++ middle ++ [Commonjs] ++ back
       ∧ ∃ browser preferBuiltins, middle = [NodeResolve browser preferBuiltins])
  ∧ length plugins
    = 13 + (if bool_decide (target options = BuildTarget.Browser) then 1 else 0)
      + (if bool_decide (mode options = BuildMode.Production) then 1 else 0).
Proof.
  intros plugins. unfold plugins. rewrite getBuildPlugins_shape.
  destruct options as [m t]. simpl.
  rewrite (bool_decide_ext (t = BuildTarget.Browser) (String.eqb t BuildTarget.Browser = true))
    by (symmetry; apply String.eqb_eq).
  rewrite (bool_decide_ext (m = BuildMode.Production) (String.eqb m BuildMode.Production = true))
    by (symmetry; apply String.eqb_eq).
  rewrite <- !(String.eqb_eq m), <- !(String.eqb_eq t).
  split_and!.
  - done.
  - destruct (String.eqb t BuildTarget.Browser), (String.eqb m BuildMode.Production); done.
  - destruct (String.eqb t BuildTarget.Browser), (String.eqb m BuildMode.Production);
      in_list; split; intros; try done; intuition (try discriminate); auto 20.
  - intros ->. destruct (String.eqb t BuildTarget.Browser).
    + by eexists [_; _; _; _; _; _; _; _; _; _; _; _; _], _.
    + by eexists [_; _; _; _; _; _; _; _; _; _; _; _], _.
  - destruct (String.eqb t BuildTarget.Browser), (String.eqb m BuildMode.Production);
      in_list; split; intros; try done; intuition (try discriminate); auto 20.
  - destruct (String.eqb t BuildTarget.Browser).
    + eexists [_; _; _; _; _; _; _; _; _], [NodeResolve _ _], _.
      split; [reflexivity | eauto].
    + eexists [_; _; _; _; _; _; _; _], [NodeResolve _ _], _.
      split; [reflexivity | eauto].
  - destruct (String.eqb t BuildTarget.Browser), (String.eqb m BuildMode.Production); done.
Qed.

(** X8: [watch] runs the pipeline of a [build] with the same options
    behind one more plugin, the source-directory watcher, placed directly
    after the configuration plugin; with the options left out the two
    pipelines differ further by their defaults. *)
Theorem watch_pipeline_extends_build (config : RemixConfig.t) (m t : string) :
  let opts := Some (mkPartial (Some m) (Some t)) in
  watchPlugins config opts
  = take 1 (buildPlugins config opts)
    ++ [WatchDirectory (RemixConfig.appDirectory config)]
    ++ drop 1 (buildPlugins config opts)
  ∧ head (buildPlugins config opts)
    = Some (RemixConfigPlugin (RemixConfig.rootDirectory config))
  ∧ (∀ opts' dir, WatchDirectory dir ∉ buildPlugins config opts')
  ∧ Terser ∈ buildPlugins config None
  ∧ Terser ∉ watchPlugins config None.
Proof.
  intros opts. split_and!.
  - reflexivity.
  - reflexivity.
  - intros opts' dir. unfold buildPlugins. rewrite getBuildPlugins_shape.
    destruct (String.eqb _ BuildTarget.Browser), (String.eqb _ BuildMode.Production);
      simpl; intros Hin;
      repeat (apply elem_of_cons in Hin as [Hin | Hin]; [discriminate Hin |]);
      by apply elem_of_nil in Hin.
  - by apply (bool_decide_unpack _).
  - by apply (bool_decide_unpack _).
Qed.

(** ** The build orchestrator: which entry file is found *)

Lemma find_first_split {A} (f : A → bool) l x :
  List.find f l = Some x
  ↔ ∃ pre post, l = pre ++ x :: post ∧ f x = true ∧ ∀ y, y ∈ pre → f y = false.
Proof.
  induction l as [|z l IH]; simpl.
  - split; [done | by intros ([|] & ? & ? & _)].
  - destruct (f z) eqn:Hz.
    + split.
      * intros [= ->]. exists [], l. split_and!; [done | done |].
        by intros ? ?%elem_of_nil.
      * intros ([|y pre] & post & Heq & Hx & Hpre).
        -- by injection Heq as -> _.
        -- injection Heq as -> _. rewrite Hpre in Hz; [done | left].
    + rewrite IH. split.
      * intros (pre & post & -> & Hx & Hpre). exists (z :: pre), post.
        split_and!; [done | done |].
        intros y [-> | Hy]%elem_of_cons; auto.
      * intros ([|y pre] & post & Heq & Hx & Hpre).
        -- injection Heq as -> _. congruence.
        -- injection Heq as -> ->. exists pre, post. split_and!; [done | done |].
           intros y' Hy'. apply Hpre. by right.
Qed.

(** X9: among the possible extensions [findFile] takes the first, in the
    order given, whose file exists, and resolves that file against the
    directory; so with the entry extensions .js, .jsx, .ts, .tsx an
    existing entry.client.js is the browser entry even when
    entry.client.tsx exists too. *)
Theorem findFile_first_existing_extension `{!Collaborators}
    (fs : string → Dir) (dir basename : string) (possibleExts : list string)
    (file : string) :
  (findFile fs dir basename possibleExts = Some file
   ↔ ∃ skipped ext rest,
       possibleExts = skipped ++ ext :: rest
       ∧ existsSync (fs dir) (basename +:+ ext) = true
       ∧ (∀ other, other ∈ skipped →
                   existsSync (fs dir) (basename +:+ other) = false)
       ∧ file = path_resolve [dir; basename +:+ ext])
  ∧ (existsSync (fs dir) (basename +:+ ".js") = true →
     findFile fs dir basename entryExts
     = Some (path_resolve [dir; basename +:+ ".js"])).
Proof.
  split.
  - unfold findFile. rewrite fmap_Some. split.
    + intros (ext & (skipped & rest & ? & ? & ?)%find_first_split & ->).
      exists skipped, ext, rest. done.
    + intros (skipped & ext & rest & ? & ? & ? & ->). exists ext.
      split; [| done]. apply find_first_split. eauto.
  - intros Hjs. unfold findFile, entryExts. simpl. by rewrite Hjs.
Qed.

Lemma findFile_first_existing_extension_witness :
  findFile (H := posix_collaborators)
           (λ _, [("entry.client.tsx", FsFile); ("entry.client.jsx", FsFile)])
           "/site/app" "entry.client" entryExts
  = Some "/site/app/entry.client.jsx".
Proof.
  apply (findFile_first_existing_extension (H := posix_collaborators)).
  exists [".js"], ".jsx", [".ts"; ".tsx"]. split_and!; try reflexivity.
  by intros other ->%list_elem_of_singleton.
Defined.

(** X10: for a target that is neither "browser" nor "server"
    [getInputOption] looks for no entry file and never throws: the input
    map it returns has exactly the ids of the manifest routes with a module
    file as keys. *)
Theorem getInputOption_other_target `{!Collaborators}
    (fs : string → Dir) (config : RemixConfig.t) (target : string) :
  target ≠ BuildTarget.Browser → target ≠ BuildTarget.Server →
  ∃ input,
    getInputOption fs config target = Ok input
    ∧ ∀ k, k ∈ obj_keys input
           ↔ ∃ key route,
               obj_get (RemixConfig.routeManifest config) key = Some route
               ∧ truthy (Entry.moduleFile route) = true
               ∧ Entry.id route = k.
Proof.
  intros Hb Hs. unfold getInputOption.
  destruct (String.eqb_spec target BuildTarget.Browser); [done |].
  destruct (String.eqb_spec target BuildTarget.Server); [done |].
  eexists. split; [reflexivity |].
  intros k. rewrite foldl_addRouteInput_keys. split.
  - intros [?%elem_of_nil | (key & f & _ & (route & ? & ? & ? & _)%routeInput_Some)];
      [done | eauto].
  - intros (key & route & Hget & Ht & Hid). right.
    exists key, (path_resolve [RemixConfig.appDirectory config;
                               default "" (Entry.moduleFile route)]).
    split; [by eapply obj_get_Some_keys |].
    apply routeInput_Some. eauto 6.
Qed.

Lemma getInputOption_other_target_witness :
  ∃ input,
    getInputOption (H := posix_collaborators) (λ _, []) exampleConfig "worker"
    = Ok input
    ∧ "routes/gists" ∈ obj_keys input.
Proof.
  destruct (getInputOption_other_target (H := posix_collaborators)
              (λ _, []) exampleConfig "worker") as (input & Hok & Hkeys);
    [done | done |].
  exists input. split; [exact Hok |].
  apply Hkeys.
  exists "routes/gists",
    (Entry.mk "routes/gists" "gists" (Some "routes/gists.tsx")
              (Some "routes/gists.css") (Some "__root")).
  by split_and!.
Defined.

(** ** routesConvention.ts: the tree a successful resolution returns *)

Lemma forOf_Forall2 {A B} (f : A → Result B) xs ys :
  forOf f xs = Ok ys → Forall2 (λ x y, f x = Ok y) xs ys.
Proof.
  revert ys. induction xs as [|x xs IH]; intros ys; simpl.
  - intros [= <-]. constructor.
  - destruct (f x) as [y | |] eqn:Hx; simpl; [| done | done].
    destruct (forOf f xs) as [ys' | |]; simpl; [| done | done].
    intros [= <-]. constructor; [done | by apply IH].
Qed.

Section ResolvedTree.
Context `{!Collaborators}.
Variable routeFiles : JsObj RouteFiles.

Lemma defineNestedRoutes_S fuel parentRouteId current :
  defineNestedRoutes (S fuel) routeFiles parentRouteId current
  = forOf (routeOfChild fuel routeFiles parentRouteId current)
          (childRouteIdsOf (obj_keys routeFiles) parentRouteId).
Proof. reflexivity. Qed.

Lemma routeOfChild_Ok fuel parentRouteId current routeId route :
  routeOfChild fuel routeFiles parentRouteId current routeId = Ok route →
  ∃ m nested,
    module (routeFilesAt routeFiles routeId) = Some m ∧ m ≠ ""
    ∧ defineNestedRoutes fuel routeFiles (Some routeId) (Some (createRouteId m))
      = Ok nested
    ∧ route = Route.mk (createRouteId m)
                (createRoutePath
                   (slice (String.length (orElse parentRouteId "routes") + 1) routeId))
                (Some m) (styles (routeFilesAt routeFiles routeId)) current nested.
Proof.
  unfold routeOfChild. fold (routeFilesAt routeFiles routeId).
  destruct (module (routeFilesAt routeFiles routeId)) as [[|c m]|] eqn:Hm;
    simpl; [done | | done].
  unfold defineRoute.
  destruct (defineNestedRoutes fuel routeFiles (Some routeId) _) as [nested | |] eqn:Hn;
    simpl; [| done | done].
  intros [= <-]. exists (String c m), nested. by split_and!.
Qed.

(** What a successful call of [defineNestedRoutes] returns, child by child. *)
Lemma defineNestedRoutes_Ok_inv fuel parentRouteId current routes :
  defineNestedRoutes fuel routeFiles parentRouteId current = Ok routes →
  ∃ fuel',
    fuel = S fuel'
    ∧ Forall2 (λ routeId route,
                 routeOfChild fuel' routeFiles parentRouteId current routeId = Ok route)
              (childRouteIdsOf (obj_keys routeFiles) parentRouteId) routes.
Proof.
  destruct fuel as [|fuel']; [done |]. rewrite defineNestedRoutes_S.
  intros Hfor%forOf_Forall2. eauto.
Qed.

Lemma elem_of_childRouteIdsOf routeIds parentRouteId id :
  id ∈ childRouteIdsOf routeIds parentRouteId
  ↔ findParentRouteId routeIds id = parentRouteId ∧ id ∈ routeIds.
Proof. unfold childRouteIdsOf. by rewrite list_elem_of_filter. Qed.

(** *** Parent links *)

Lemma defineNestedRoutes_parentLinked fuel : ∀ parentRouteId current routes,
  defineNestedRoutes fuel routeFiles parentRouteId current = Ok routes →
  forallb (parentLinked current) routes = true.
Proof.
  induction fuel as [|fuel IH]; intros parentRouteId current routes Hcall; [done |].
  apply defineNestedRoutes_Ok_inv in Hcall as (fuel' & [= <-] & Hall).
  induction Hall as [|routeId route ids routes Hroute _ IHall]; [done |].
  simpl. rewrite IHall, andb_true_r.
  apply routeOfChild_Ok in Hroute as (m & nested & _ & _ & Hnested & ->).
  rewrite parentLinked_unfold. simpl.
  rewrite bool_decide_eq_true_2 by done. simpl. by eapply IH.
Qed.
End ResolvedTree.

(** *** Chains of inferred parents *)

Section Ancestors.
Variable routeIds : list string.

Lemma ancestor_S_r n : ∀ id,
  ancestor routeIds (S n) id
  = ancestor routeIds n id ≫= findParentRouteId routeIds.
Proof.
  induction n as [|n IH]; intros id.
  - simpl. by destruct (findParentRouteId routeIds id).
  - change (ancestor routeIds (S (S n)) id)
      with (findParentRouteId routeIds id ≫= ancestor routeIds (S n)).
    change (ancestor routeIds (S n) id)
      with (findParentRouteId routeIds id ≫= ancestor routeIds n).
    destruct (findParentRouteId routeIds id) as [p|]; simpl; [apply IH | done].
Qed.

Lemma ancestor_add n k : ∀ id,
  ancestor routeIds (n + k) id = ancestor routeIds n id ≫= ancestor routeIds k.
Proof.
  induction n as [|n IH]; intros id; [done |].
  simpl. destruct (findParentRouteId routeIds id) as [p|]; simpl; [apply IH | done].
Qed.

Lemma ancestor_length n : ∀ id a,
  ancestor routeIds n id = Some a → String.length a + n ≤ String.length id.
Proof.
  induction n as [|n IH]; intros id a; simpl.
  - intros [= ->]. lia.
  - destruct (findParentRouteId routeIds id) as [p|] eqn:Hp; simpl; [| done].
    intros Ha%IH. apply findParentRouteId_shorter in Hp as [_ Hlt]. lia.
Qed.

Lemma ancestor_elem_of n : ∀ id a,
  id ∈ routeIds → ancestor routeIds n id = Some a → a ∈ routeIds.
Proof.
  induction n as [|n IH]; intros id a Hid; simpl.
  - by intros [= <-].
  - destruct (findParentRouteId routeIds id) as [p|] eqn:Hp; simpl; [| done].
    apply IH. by apply findParentRouteId_shorter in Hp as [? _].
Qed.

(** Two children of one parent on the chain of the same id are equal. *)
Lemma ancestor_child_unique parentRouteId id n1 n2 c1 c2 :
  findParentRouteId routeIds c1 = parentRouteId →
  findParentRouteId routeIds c2 = parentRouteId →
  ancestor routeIds n1 id = Some c1 → ancestor routeIds n2 id = Some c2 →
  c1 = c2.
Proof.
  assert (∀ n k a b,
            findParentRouteId routeIds a = parentRouteId →
            findParentRouteId routeIds b = parentRouteId →
            ancestor routeIds n id = Some a →
            ancestor routeIds (n + S k) id = Some b → False) as Hfar.
  { intros n k a b Ha Hb Hn Hnk. rewrite ancestor_add, Hn in Hnk. simpl in Hnk.
    rewrite Ha in Hnk. destruct parentRouteId as [p|]; simpl in Hnk; [| done].
    apply ancestor_length in Hnk.
    apply findParentRouteId_shorter in Hb as [_ Hlt]. lia. }
  intros Hc1 Hc2 H1 H2. destruct (Nat.lt_trichotomy n1 n2) as [Hlt | [-> | Hlt]].
  - destruct (Hfar n1 (n2 - n1 - 1) c1 c2); try done.
    by replace (n1 + S (n2 - n1 - 1)) with n2 by lia.
  - congruence.
  - destruct (Hfar n2 (n1 - n2 - 1) c2 c1); try done.
    by replace (n2 + S (n1 - n2 - 1)) with n1 by lia.
Qed.

(** Every id has a top-level route on its chain. *)
Lemma ancestor_top id :
  ∃ n top, ancestor routeIds n id = Some top
           ∧ findParentRouteId routeIds top = None.
Proof.
  assert (∀ len id, String.length id < len →
            ∃ n top, ancestor routeIds n id = Some top
                     ∧ findParentRouteId routeIds top = None) as Hall.
  { induction len as [|len IH]; intros x Hlen; [lia |].
    destruct (findParentRouteId routeIds x) as [p|] eqn:Hp.
    - pose proof Hp as [_ Hlt]%findParentRouteId_shorter.
      destruct (IH p) as (n & top & Hn & Htop); [lia |].
      exists (S n), top. simpl. by rewrite Hp.
    - by exists 0, x. }
  apply (Hall (S (String.length id))). lia.
Qed.
End Ancestors.

Lemma Forall2_elem_of_r {A B} (R : A → B → Prop) xs ys y :
  Forall2 R xs ys → y ∈ ys → ∃ x, x ∈ xs ∧ R x y.
Proof.
  induction 1 as [|x y' xs ys Hxy _ IH]; [by intros ?%elem_of_nil |].
  intros [-> | Hin]%elem_of_cons.
  - exists x. split; [left | done].
  - destruct (IH Hin) as (x' & ? & ?). exists x'. split; [by right | done].
Qed.

Lemma Forall2_elem_of_l {A B} (R : A → B → Prop) xs ys x :
  Forall2 R xs ys → x ∈ xs → ∃ y, y ∈ ys ∧ R x y.
Proof.
  induction 1 as [|x' y xs ys Hxy _ IH]; [by intros ?%elem_of_nil |].
  intros [-> | Hin]%elem_of_cons.
  - exists y. split; [left | done].
  - destruct (IH Hin) as (y' & ? & ?). exists y'. split; [by right | done].
Qed.

Lemma elem_of_treeIds routes id :
  id ∈ treeIds routes ↔ ∃ route, route ∈ routes ∧ id ∈ routeIdsOf route.
Proof.
  induction routes as [|route routes IH].
  - split; [by intros ?%elem_of_nil | by intros (? & ?%elem_of_nil & _)].
  - change (treeIds (route :: routes)) with (routeIdsOf route ++ treeIds routes).
    rewrite elem_of_app, IH. split.
    + intros [Hid | (route' & Hroute & Hid)].
      * exists route. split; [left | done].
      * exists route'. split; [by right | done].
    + intros (route' & [-> | Hroute]%elem_of_cons & Hid); eauto.
Qed.

(** *** The ids of the routes *)

Section ResolvedIds.
Context `{!Collaborators}.
Variable routeFiles : JsObj RouteFiles.
Hypothesis keyed : ∀ id m,
  module (routeFilesAt routeFiles id) = Some m → createRouteId m = id.
Hypothesis keys_NoDup : NoDup (obj_keys routeFiles).

Lemma routeOfChild_ids fuel parentRouteId current routeId route :
  routeOfChild fuel routeFiles parentRouteId current routeId = Ok route →
  ∃ nested,
    Route.id route = routeId
    ∧ Route.children route = nested
    ∧ routeIdsOf route = routeId :: treeIds nested
    ∧ defineNestedRoutes fuel routeFiles (Some routeId) (Some routeId) = Ok nested.
Proof.
  intros (m & nested & Hm & _ & Hnested & ->)%routeOfChild_Ok.
  rewrite (keyed _ _ Hm) in *. exists nested. by split_and!.
Qed.

Lemma defineNestedRoutes_ids_sound fuel : ∀ parentRouteId current routes,
  defineNestedRoutes fuel routeFiles parentRouteId current = Ok routes →
  ∀ id, id ∈ treeIds routes →
    id ∈ obj_keys routeFiles
    ∧ ∃ n child,
        child ∈ childRouteIdsOf (obj_keys routeFiles) parentRouteId
        ∧ ancestor (obj_keys routeFiles) n id = Some child.
Proof.
  induction fuel as [|fuel IH]; intros parentRouteId current routes Hcall id Hid;
    [done |].
  apply defineNestedRoutes_Ok_inv in Hcall as (fuel' & [= <-] & Hall).
  apply elem_of_treeIds in Hid as (route & Hroute & Hid).
  destruct (Forall2_elem_of_r _ _ _ _ Hall Hroute) as (child & Hchild & Hdef).
  apply routeOfChild_ids in Hdef as (nested & _ & _ & Hids & Hnested).
  rewrite Hids in Hid. apply elem_of_cons in Hid as [-> | Hid].
  - split; [by apply elem_of_childRouteIdsOf in Hchild as [_ ?] |].
    by exists 0, child.
  - destruct (IH _ _ _ Hnested id Hid) as (Hkey & n & c & Hc & Hn).
    split; [done |]. exists (S n), child. split; [done |].
    rewrite ancestor_S_r, Hn. simpl.
    by apply elem_of_childRouteIdsOf in Hc as [? _].
Qed.

Lemma defineNestedRoutes_ids_NoDup fuel : ∀ parentRouteId current routes,
  defineNestedRoutes fuel routeFiles parentRouteId current = Ok routes →
  NoDup (treeIds routes).
Proof.
  induction fuel as [|fuel IH]; intros parentRouteId current routes Hcall; [done |].
  apply defineNestedRoutes_Ok_inv in Hcall as (fuel' & [= <-] & Hall).
  assert (NoDup (childRouteIdsOf (obj_keys routeFiles) parentRouteId)) as Hnodup
    by by apply NoDup_filter.
  assert (∀ c, c ∈ childRouteIdsOf (obj_keys routeFiles) parentRouteId →
               findParentRouteId (obj_keys routeFiles) c = parentRouteId) as Hparent
    by (by intros c [? _]%elem_of_childRouteIdsOf).
  set (cs := childRouteIdsOf (obj_keys routeFiles) parentRouteId) in *.
  clearbody cs.
  assert (∀ child route id,
            routeOfChild fuel routeFiles parentRouteId current child = Ok route →
            id ∈ routeIdsOf route →
            ∃ n, ancestor (obj_keys routeFiles) n id = Some child) as Hchain.
  { intros child route id (nested & _ & _ & -> & Hnested)%routeOfChild_ids.
    intros [-> | Hid]%elem_of_cons; [by exists 0 |].
    destruct (defineNestedRoutes_ids_sound _ _ _ _ Hnested id Hid)
      as (_ & n & c & [Hc _]%elem_of_childRouteIdsOf & Hn).
    exists (S n). by rewrite ancestor_S_r, Hn. }
  revert Hnodup Hparent.
  induction Hall as [|child route cs' routes' Hroute Hall IHall];
    intros Hnodup Hparent.
  - constructor.
  - change (treeIds (route :: routes')) with (routeIdsOf route ++ treeIds routes').
    apply NoDup_cons in Hnodup as [Hfresh Hnodup].
    apply NoDup_app. split_and!.
    + pose proof Hroute as (nested & _ & _ & -> & Hnested)%routeOfChild_ids.
      constructor; [| by eapply IH].
      intros Hin.
      destruct (defineNestedRoutes_ids_sound _ _ _ _ Hnested child Hin)
        as (_ & n & c & [Hc _]%elem_of_childRouteIdsOf & Hn).
      assert (ancestor (obj_keys routeFiles) (S n) child = Some child) as Hloop
        by by rewrite ancestor_S_r, Hn.
      apply ancestor_length in Hloop. lia.
    + intros id Hid (route' & Hroute' & Hid')%elem_of_treeIds.
      destruct (Forall2_elem_of_r _ _ _ _ Hall Hroute') as (child' & Hchild' & Hdef').
      destruct (Hchain _ _ _ Hroute Hid) as [n Hn].
      destruct (Hchain _ _ _ Hdef' Hid') as [n' Hn'].
      assert (child = child') as ->.
      { eapply (ancestor_child_unique (obj_keys routeFiles) parentRouteId id);
          [| | exact Hn | exact Hn'].
        - apply Hparent. left.
        - apply Hparent. by right. }
      done.
    + apply IHall; [done |]. intros c Hc. apply Hparent. by right.
Qed.

Lemma defineNestedRoutes_ids_complete n :
  ∀ fuel parentRouteId current routes id child,
    defineNestedRoutes fuel routeFiles parentRouteId current = Ok routes →
    id ∈ obj_keys routeFiles →
    ancestor (obj_keys routeFiles) n id = Some child →
    findParentRouteId (obj_keys routeFiles) child = parentRouteId →
    id ∈ treeIds routes.
Proof.
  induction n as [|n IH];
    intros fuel parentRouteId current routes id child Hcall Hid Hn Hparent.
  - injection Hn as <-.
    apply defineNestedRoutes_Ok_inv in Hcall as (fuel' & -> & Hall).
    destruct (Forall2_elem_of_l _ _ _ id Hall) as (route & Hroute & Hdef);
      [by apply elem_of_childRouteIdsOf |].
    apply routeOfChild_ids in Hdef as (nested & _ & _ & Hids & _).
    apply elem_of_treeIds. exists route. split; [done |]. rewrite Hids. left.
  - rewrite ancestor_S_r in Hn.
    destruct (ancestor (obj_keys routeFiles) n id) as [below|] eqn:Hbelow;
      [| done].
    simpl in Hn.
    apply defineNestedRoutes_Ok_inv in Hcall as (fuel' & -> & Hall).
    assert (child ∈ obj_keys routeFiles) as Hchild
      by by apply findParentRouteId_shorter in Hn as [? _].
    destruct (Forall2_elem_of_l _ _ _ child Hall) as (route & Hroute & Hdef);
      [by apply elem_of_childRouteIdsOf |].
    apply routeOfChild_ids in Hdef as (nested & _ & _ & Hids & Hnested).
    apply elem_of_treeIds. exists route. split; [done |]. rewrite Hids. right.
    by eapply IH.
Qed.

(** The routes of a successful top-level call carry every id of
    [routeFiles] exactly once. *)
Lemma defineNestedRoutes_ids current fuel routes :
  defineNestedRoutes fuel routeFiles None current = Ok routes →
  NoDup (treeIds routes)
  ∧ ∀ id, id ∈ treeIds routes ↔ id ∈ obj_keys routeFiles.
Proof.
  intros Hcall. split; [by eapply defineNestedRoutes_ids_NoDup |].
  intros id. split.
  - intros Hid. by destruct (defineNestedRoutes_ids_sound _ _ _ _ Hcall id Hid).
  - intros Hid.
    destruct (ancestor_top (obj_keys routeFiles) id) as (n & top & Hn & Htop).
    by eapply defineNestedRoutes_ids_complete.
Qed.
End ResolvedIds.

(** *** Where the module and styles files of a route come from *)

Section SourcedFiles.
Context `{!Collaborators}.
Variable appDir : string.

Lemma sourced_nil : sourced [] [].
Proof. split; [constructor | done]. Qed.

Lemma sourced_weaken files file routeFiles :
  sourced files routeFiles → sourced (files ++ [file]) routeFiles.
Proof.
  intros [Hnodup Hsrc]. split; [done |].
  intros id entry Hget. destruct (Hsrc id entry Hget) as [Hm Hs]. split.
  - intros m (f & ? & ?)%Hm. exists f. rewrite elem_of_app. auto.
  - intros s (f & ? & ?)%Hs. exists f. rewrite elem_of_app. auto.
Qed.

Lemma sourced_set files id entry routeFiles :
  sourced files routeFiles →
  (∀ m, module entry = Some m →
        ∃ file, file ∈ files ∧ isModuleFile file = true
                ∧ m = path_join "routes" file ∧ routeIdOfFile file = id) →
  (∀ s, styles entry = Some s →
        ∃ file, file ∈ files ∧ isModuleFile file = false
                ∧ isStylesFile file = true
                ∧ s = path_join "routes" file ∧ routeIdOfFile file = id) →
  sourced files (obj_set id entry routeFiles).
Proof.
  intros [Hnodup Hsrc] Hm Hs. split; [by apply obj_set_NoDup |].
  intros id' entry'. destruct (decide (id = id')) as [<- | Hne].
  - rewrite obj_get_set_eq. by intros [= <-].
  - rewrite obj_get_set_ne by done. apply Hsrc.
Qed.

Lemma collectRouteFile_sourced files file routeFiles routeFiles' :
  sourced files routeFiles →
  collectRouteFile appDir file routeFiles = Ok routeFiles' →
  sourced (files ++ [file]) routeFiles'.
Proof.
  intros Hsrc%(sourced_weaken _ file) Hstep.
  assert (file ∈ files ++ [file]) as Hfile
    by (apply elem_of_app; right; left).
  revert Hsrc Hfile. generalize (files ++ [file]). intros all Hsrc Hfile.
  unfold collectRouteFile, findOrCreateFiles in Hstep.
  fold (routeIdOfFile file) in Hstep.
  set (rf0 := match obj_get routeFiles (routeIdOfFile file) with
              | Some _ => routeFiles
              | None => obj_set (routeIdOfFile file) (mkRouteFiles None None) routeFiles
              end).
  assert (match obj_get routeFiles (routeIdOfFile file) with
          | Some _ => (routeIdOfFile file, routeFiles)
          | None => (routeIdOfFile file,
                     obj_set (routeIdOfFile file) (mkRouteFiles None None) routeFiles)
          end = (routeIdOfFile file, rf0)) as Hpair
    by (unfold rf0; by destruct (obj_get routeFiles _)).
  rewrite Hpair in Hstep. clear Hpair.
  assert (sourced all rf0) as Hsrc0.
  { unfold rf0. destruct (obj_get routeFiles (routeIdOfFile file)); [done |].
    by apply sourced_set. }
  pose proof (proj2 Hsrc0 (routeIdOfFile file)) as Hold.
  destruct (obj_get rf0 (routeIdOfFile file)) as [old|] eqn:Hget; simpl in Hstep.
  - destruct (Hold old eq_refl) as [Hm Hs].
    destruct (isModuleFile file) eqn:Hmod; [| destruct (isStylesFile file) eqn:Hsty];
      [| | done]; injection Hstep as <-; apply sourced_set; try done; simpl.
    + intros m [= <-]. by exists file.
    + intros s [= <-]. by exists file.
  - destruct (isModuleFile file) eqn:Hmod; [| destruct (isStylesFile file) eqn:Hsty];
      [| | done]; injection Hstep as <-; apply sourced_set; try done; simpl.
    + intros m [= <-]. by exists file.
    + intros s [= <-]. by exists file.
Qed.

Lemma visitAll_sourced files : ∀ done routeFiles routeFiles',
  sourced done routeFiles →
  visitAll (collectRouteFile appDir) files routeFiles = Ok routeFiles' →
  sourced (done ++ files) routeFiles'.
Proof.
  induction files as [|file files IH]; intros done routeFiles routeFiles' Hsrc; simpl.
  - intros [= <-]. by rewrite app_nil_r.
  - destruct (collectRouteFile appDir file routeFiles) as [rf | |] eqn:Hstep;
      simpl; [| done | done].
    intros Hrest. replace (done ++ file :: files) with ((done ++ [file]) ++ files)
      by by rewrite <- app_assoc.
    eapply IH; [| exact Hrest]. by eapply collectRouteFile_sourced.
Qed.

Lemma sourced_keyed files routeFiles id m :
  sourced files routeFiles →
  module (routeFilesAt routeFiles id) = Some m → createRouteId m = id.
Proof.
  intros [_ Hsrc]. unfold routeFilesAt.
  destruct (obj_get routeFiles id) as [entry|] eqn:Hget; [| done]. simpl.
  intros Hm. destruct (Hsrc id entry Hget) as [Hmod _].
  by destruct (Hmod m Hm) as (file & _ & _ & -> & <-).
Qed.
End SourcedFiles.

(** *** All the routes of a resolved tree *)

Lemma routeNodes_unfold route :
  routeNodes route = route :: treeNodes (Route.children route).
Proof. by destruct route. Qed.

Lemma elem_of_treeNodes routes node :
  node ∈ treeNodes routes ↔ ∃ route, route ∈ routes ∧ node ∈ routeNodes route.
Proof.
  induction routes as [|route routes IH].
  - split; [by intros ?%elem_of_nil | by intros (? & ?%elem_of_nil & _)].
  - change (treeNodes (route :: routes)) with (routeNodes route ++ treeNodes routes).
    rewrite elem_of_app, IH. split.
    + intros [Hin | (route' & Hroute & Hin)].
      * exists route. split; [left | done].
      * exists route'. split; [by right | done].
    + intros (route' & [-> | Hroute]%elem_of_cons & Hin); eauto.
Qed.

Lemma treeNodes_setParentId id routes node :
  node ∈ treeNodes (setParentId id <$> routes) →
  ∃ original,
    original ∈ treeNodes routes
    ∧ Route.id node = Route.id original
    ∧ Route.path node = Route.path original
    ∧ Route.moduleFile node = Route.moduleFile original
    ∧ Route.stylesFile node = Route.stylesFile original
    ∧ Route.children node = Route.children original.
Proof.
  intros (top & (route & -> & Hroute)%list_elem_of_fmap & Hnode)%elem_of_treeNodes.
  rewrite routeNodes_unfold in Hnode. apply elem_of_cons in Hnode as [-> | Hnode].
  - exists route. split; [| done].
    apply elem_of_treeNodes. exists route. split; [done |].
    rewrite routeNodes_unfold. left.
  - exists node. split; [| done].
    apply elem_of_treeNodes. exists route. split; [done |].
    rewrite routeNodes_unfold. by right.
Qed.

Section ResolvedNodes.
Context `{!Collaborators}.
Variable routeFiles : JsObj RouteFiles.

(** Every route of the tree was defined by [routeOfChild] for some child
    id of some parent. *)
Lemma defineNestedRoutes_nodes fuel : ∀ parentRouteId current routes node,
  defineNestedRoutes fuel routeFiles parentRouteId current = Ok routes →
  node ∈ treeNodes routes →
  ∃ fuel' parent cur routeId,
    routeId ∈ childRouteIdsOf (obj_keys routeFiles) parent
    ∧ routeOfChild fuel' routeFiles parent cur routeId = Ok node.
Proof.
  induction fuel as [|fuel IH]; intros parentRouteId current routes node Hcall Hnode;
    [done |].
  apply defineNestedRoutes_Ok_inv in Hcall as (fuel' & [= <-] & Hall).
  apply elem_of_treeNodes in Hnode as (route & Hroute & Hnode).
  destruct (Forall2_elem_of_r _ _ _ _ Hall Hroute) as (child & Hchild & Hdef).
  rewrite routeNodes_unfold in Hnode. apply elem_of_cons in Hnode as [-> | Hnode].
  - eauto 8.
  - pose proof Hdef as (m & nested & _ & _ & Hnested & ->)%routeOfChild_Ok.
    simpl in Hnode. by eapply IH.
Qed.
End ResolvedNodes.

Lemma slice_app prefix s : slice (String.length prefix) (prefix +:+ s) = s.
Proof.
  induction prefix as [|c prefix IH]; [by destruct s |].
  rewrite string_app_cons. simpl. apply IH.
Qed.

(** *** The whole resolution *)

Lemma Result_bind_Ok {A B} (m : Result A) (f : A → Result B) b :
  m ≫= f = Ok b → ∃ a, m = Ok a ∧ f a = Ok b.
Proof. destruct m as [a | |]; simpl; [eauto | done | done]. Qed.

Section ResolvedConvention.
Context `{!Collaborators}.
Variables (app : Dir) (layoutRouteId appDir : string).

Lemma defineConventionalRoutes_Ok_inv routes :
  defineConventionalRoutes app layoutRouteId appDir = Ok routes →
  ∃ routeFiles top moduleFile,
    visitAll (collectRouteFile appDir) (routeFileNames app) [] = Ok routeFiles
    ∧ defineNestedRoutes (nestingBound (obj_keys routeFiles)) routeFiles None None
      = Ok top
    ∧ findRootRouteModule app layoutRouteId = Ok moduleFile
    ∧ routes = [Route.mk ("__" +:+ layoutRouteId) "/" (Some moduleFile) None None
                  (setParentId ("__" +:+ layoutRouteId) <$> top)].
Proof.
  unfold defineConventionalRoutes.
  intros (entries & Hentries & Hrest)%Result_bind_Ok.
  apply Result_bind_Ok in Hrest as (routeFiles & Hscan & Hlayout).
  unfold defineLayoutRoutes, defineRoutes in Hlayout.
  apply Result_bind_Ok in Hlayout as (top & Htop & Hlayout).
  apply Result_bind_Ok in Hlayout as (moduleFile & Hroot & Hroutes).
  injection Hroutes as <-.
  exists routeFiles, top, moduleFile. split_and!; [| done | done | done].
  unfold readdirSync in Hentries.
  destruct (dir_lookup app "routes") as [[| entries' |]|] eqn:Hdir; try done.
  injection Hentries as ->. by rewrite <- (visitFiles_routeFileNames _ _ _ Hdir).
Qed.

Lemma findRootRouteModule_Ok moduleFile :
  findRootRouteModule app layoutRouteId = Ok moduleFile →
  ∃ skipped ext rest,
    ["js"; "jsx"; "tsx"] = skipped ++ ext :: rest
    ∧ moduleFile = layoutRouteId +:+ "." +:+ ext
    ∧ existsSync app moduleFile = true
    ∧ ∀ other, other ∈ skipped →
               existsSync app (layoutRouteId +:+ "." +:+ other) = false.
Proof.
  unfold findRootRouteModule.
  destruct (List.find _ _) as [name|] eqn:Hfind; [| done].
  intros [= <-]. apply find_first_split in Hfind as (pre & post & Heq & Hex & Hpre).
  apply fmap_app_inv in Heq as (skipped & rest' & -> & Hrest & Hlist).
  symmetry in Hrest. apply fmap_cons_inv in Hrest as (ext & rest & -> & _ & ->).
  exists skipped, ext, rest. split_and!; [done | done | done |].
  intros other Hother. apply Hpre. apply list_elem_of_fmap. eauto.
Qed.

Lemma treeIds_setParentId id routes :
  treeIds (setParentId id <$> routes) = treeIds routes.
Proof.
  unfold treeIds. induction routes as [|route routes IH]; [done |].
  csimpl. rewrite IH. f_equal. by destruct route.
Qed.

Lemma parentLinked_setParentId id current route :
  parentLinked current route = true →
  parentLinked (Some id) (setParentId id route) = true.
Proof.
  rewrite !parentLinked_unfold, !andb_true_iff. simpl.
  intros [_ Hchildren]. split; [by apply bool_decide_eq_true_2 | done].
Qed.
End ResolvedConvention.

Section ResolvedProperties.
Context `{!Collaborators}.
Variables (app : Dir) (layoutRouteId appDir : string).

(** What the scan of a successful resolution leaves in [routeFiles]. *)
Lemma scan_Ok routeFiles :
  visitAll (collectRouteFile appDir) (routeFileNames app) [] = Ok routeFiles →
  collected (routeFileNames app) routeFiles
  ∧ sourced (routeFileNames app) routeFiles.
Proof.
  intros Hscan. split.
  - pose proof (visitAll_collect appDir (routeFileNames app) [] [] collected_nil)
      as Hc.
    rewrite Hscan in Hc. by destruct Hc.
  - apply (visitAll_sourced appDir (routeFileNames app) [] [] routeFiles);
      [apply sourced_nil | done].
Qed.

Lemma resolved_parentLinked routes :
  defineConventionalRoutes app layoutRouteId appDir = Ok routes →
  treeParentLinked routes = true.
Proof.
  intros (routeFiles & top & moduleFile & _ & Htop & _ & ->)
    %defineConventionalRoutes_Ok_inv.
  unfold treeParentLinked. cbn [forallb]. rewrite andb_true_r, parentLinked_unfold.
  cbn [Route.parentId Route.id Route.children].
  rewrite bool_decide_eq_true_2 by done. cbn [andb].
  apply defineNestedRoutes_parentLinked in Htop.
  induction top as [|route top IH]; [done |].
  cbn [forallb] in Htop. apply andb_true_iff in Htop as [Hroute Htop].
  rewrite fmap_cons. cbn [forallb].
  rewrite (parentLinked_setParentId _ _ _ Hroute). by apply IH.
Qed.

(** The root of a resolved tree and the ids below it. *)
Lemma resolved_routes_below_root routes :
  defineConventionalRoutes app layoutRouteId appDir = Ok routes →
  ∃ root,
    routes = [root]
    ∧ Route.id root = "__" +:+ layoutRouteId
    ∧ NoDup (treeIds (Route.children root))
    ∧ ∀ id, id ∈ treeIds (Route.children root)
            ↔ ∃ file, file ∈ routeFileNames app ∧ routeIdOfFile file = id.
Proof.
  intros (routeFiles & top & moduleFile & Hscan & Htop & _ & ->)
    %defineConventionalRoutes_Ok_inv.
  apply scan_Ok in Hscan as [Hc Hsrc].
  eexists. split; [reflexivity |]. split; [reflexivity |].
  simpl. rewrite treeIds_setParentId.
  destruct (defineNestedRoutes_ids routeFiles
              (λ id m, sourced_keyed _ _ id m Hsrc) (proj1 Hsrc) _ _ _ Htop)
    as [Hnodup Hids].
  split; [done |]. intros id. rewrite Hids. apply (Hc id).
Qed.

(** X11: a successful resolution returns one route, the root layout: its
    id is the layout name behind "__", its path "/", its module the first
    of <layout>.js, <layout>.jsx, <layout>.tsx that exists, it has no
    parent, every route directly below it names it as parent, and further
    down every route names the route that contains it. *)
Theorem resolved_tree_has_linked_root (routes : list ConfigRouteObject) :
  defineConventionalRoutes app layoutRouteId appDir = Ok routes →
  (∃ ext children,
     routes = [Route.mk ("__" +:+ layoutRouteId) "/"
                 (Some (layoutRouteId +:+ "." +:+ ext)) None None children]
     ∧ (∃ skipped rest,
          ["js"; "jsx"; "tsx"] = skipped ++ ext :: rest
          ∧ existsSync app (layoutRouteId +:+ "." +:+ ext) = true
          ∧ ∀ other, other ∈ skipped →
                     existsSync app (layoutRouteId +:+ "." +:+ other) = false)
     ∧ Forall (λ route, Route.parentId route = Some ("__" +:+ layoutRouteId))
              children)
  ∧ treeParentLinked routes = true.
Proof.
  intros Hok. split; [| by apply resolved_parentLinked].
  apply defineConventionalRoutes_Ok_inv
    in Hok as (routeFiles & top & moduleFile & _ & _ & Hroot & ->).
  apply findRootRouteModule_Ok in Hroot as (skipped & ext & rest & Hexts & -> & Hex & Hskip).
  exists ext, (setParentId ("__" +:+ layoutRouteId) <$> top).
  split_and!; [done | by exists skipped, rest |].
  apply Forall_fmap, Forall_forall. by intros route _.
Qed.

(** X12: below the root of a resolved tree no id occurs twice, and the
    ids are exactly the route ids of the regular files under the routes
    directory: no file is left out and no route is made up. *)
Theorem resolved_routes_match_files (routes : list ConfigRouteObject) :
  defineConventionalRoutes app layoutRouteId appDir = Ok routes →
  ∃ root,
    routes = [root]
    ∧ NoDup (treeIds (Route.children root))
    ∧ ∀ id, id ∈ treeIds (Route.children root)
            ↔ ∃ file, file ∈ routeFileNames app ∧ routeIdOfFile file = id.
Proof.
  intros (root & -> & _ & Hnodup & Hids)%resolved_routes_below_root.
  by exists root.
Qed.
End ResolvedProperties.

Lemma resolved_tree_has_linked_root_witness :
  ∃ routes,
    defineConventionalRoutes (H := posix_collaborators) exampleApp "root" "/site/app"
    = Ok routes
    ∧ treeParentLinked routes = true.
Proof.
  eexists. split; [reflexivity |].
  by apply (resolved_tree_has_linked_root (H := posix_collaborators)
              exampleApp "root" "/site/app").
Defined.

Lemma resolved_routes_match_files_witness :
  ∃ root, take 1 exampleTree = [root]
          ∧ "routes/gists/$username" ∈ treeIds (Route.children root).
Proof.
  destruct (resolved_routes_match_files (H := posix_collaborators)
              exampleApp "root" "/site/app" (take 1 exampleTree) eq_refl)
    as (root & Hroot & _ & Hids).
  exists root. split; [exact Hroot |]. apply Hids.
  exists "gists/$username.tsx". split; [| reflexivity].
  by apply (bool_decide_unpack _).
Defined.

(** *** Resolution followed by the manifest *)

Lemma obj_get_Some_elem_of {V} (o : JsObj V) k v : obj_get o k = Some v → (k, v) ∈ o.
Proof.
  induction o as [|[k' v'] o IH]; simpl; [done |].
  destruct (String.eqb_spec k' k) as [-> | Hne].
  - intros [= ->]. left.
  - intros Hget. right. by apply IH.
Qed.

Lemma elem_of_treeEntries routes item :
  item ∈ treeEntries routes ↔ ∃ route, route ∈ routes ∧ item ∈ routeEntries route.
Proof.
  induction routes as [|route routes IH].
  - split; [by intros ?%elem_of_nil | by intros (? & ?%elem_of_nil & _)].
  - change (treeEntries (route :: routes))
      with (routeEntries route ++ treeEntries routes).
    rewrite elem_of_app, IH. split.
    + intros [Hin | (route' & Hroute & Hin)].
      * exists route. split; [left | done].
      * exists route'. split; [by right | done].
    + intros (route' & [-> | Hroute]%elem_of_cons & Hin); eauto.
Qed.

(** In a parent-linked tree every entry but the one of the route itself
    names a parent that is an id of the tree. *)
Lemma parentLinked_entries route : ∀ parent item,
  parentLinked parent route = true →
  item ∈ routeEntries route →
  item = (Route.id route, rest route)
  ∨ ∃ p, Entry.parentId item.2 = Some p ∧ p ∈ routeIdsOf route.
Proof.
  induction route as [id path moduleFile stylesFile parentId children IHc]
    using Route_ind_forall.
  intros parent item. rewrite parentLinked_unfold, routeEntries_unfold, routeIdsOf_unfold.
  cbn [Route.id Route.children Route.parentId].
  rewrite andb_true_iff. intros [_ Hchildren] [-> | Hitem]%elem_of_cons; [by left |].
  right. apply elem_of_treeEntries in Hitem as (child & Hchild & Hitem).
  rewrite Forall_forall in IHc.
  assert (parentLinked (Some id) child = true) as Hlinked.
  { rewrite forallb_forall in Hchildren. apply Hchildren.
    by apply list_elem_of_In. }
  destruct (IHc child Hchild (Some id) item Hlinked Hitem) as [-> | (p & Hp & Hin)].
  - exists id. split; [| left]. simpl.
    rewrite parentLinked_unfold, andb_true_iff, bool_decide_eq_true in Hlinked.
    by destruct Hlinked.
  - exists p. split; [done |]. right. apply elem_of_treeIds. eauto.
Qed.

Section ResolvedManifest.
Context `{!Collaborators}.
Variables (app : Dir) (layoutRouteId appDir : string).

(** X13: resolution and flattening compose.  When no file under routes
    has the id of the root layout ("__" and the layout name), the ids of a
    resolved tree are pairwise distinct, the edges rebuilt from the
    parentId references of its manifest are exactly the edges of the
    tree, and every manifest entry other than the root's names a parent
    that is itself a key of the manifest. *)
Theorem resolved_manifest_round_trip (routes : list ConfigRouteObject) :
  defineConventionalRoutes app layoutRouteId appDir = Ok routes →
  (∀ file, file ∈ routeFileNames app →
           routeIdOfFile file ≠ "__" +:+ layoutRouteId) →
  let manifest := createRouteManifest routes [] in
  NoDup (treeIds routes)
  ∧ obj_keys manifest = treeIds routes
  ∧ manifestEdges manifest = treeEdges routes
  ∧ ∀ key entry,
      obj_get manifest key = Some entry → key ≠ "__" +:+ layoutRouteId →
      ∃ parent, Entry.parentId entry = Some parent ∧ parent ∈ obj_keys manifest.
Proof.
  intros Hok Hroot manifest.
  pose proof (resolved_parentLinked _ _ _ _ Hok) as Hlinked.
  destruct (resolved_routes_below_root app layoutRouteId appDir routes Hok)
    as (root & -> & Hid & Hnodup & Hids).
  assert (NoDup (treeIds [root])) as Hall.
  { unfold treeIds. csimpl. rewrite app_nil_r, routeIdsOf_unfold, Hid.
    constructor; [| done].
    intros (file & Hfile & Heq)%Hids. by destruct (Hroot file Hfile). }
  assert (manifest = treeEntries [root]) as Hmanifest
    by (by apply (createRouteManifest_fresh [root] [])).
  assert (obj_keys manifest = treeIds [root]) as Hkeys
    by (rewrite Hmanifest; apply treeEntries_keys).
  split_and!; [done | done | |].
  - rewrite Hmanifest. by apply treeEntries_edges.
  - intros key entry Hget Hkey. apply obj_get_Some_elem_of in Hget.
    rewrite Hmanifest in Hget. unfold treeEntries in Hget. csimpl in Hget.
    rewrite app_nil_r in Hget.
    unfold treeParentLinked in Hlinked. cbn [forallb] in Hlinked.
    rewrite andb_true_r in Hlinked.
    destruct (parentLinked_entries root None (key, entry) Hlinked Hget)
      as [[= -> _] | (p & Hp & Hin)]; [by rewrite Hid in Hkey |].
    exists p. split; [done |]. rewrite Hkeys. unfold treeIds. csimpl.
    by rewrite app_nil_r.
Qed.
End ResolvedManifest.

Lemma resolved_manifest_round_trip_witness :
  manifestEdges (createRouteManifest (take 1 exampleTree) [])
  = treeEdges (take 1 exampleTree).
Proof.
  apply (resolved_manifest_round_trip (H := posix_collaborators)
           exampleApp "root" "/site/app" (take 1 exampleTree) eq_refl).
  intros file Hfile.
  repeat (apply elem_of_cons in Hfile as [-> | Hfile]; [discriminate |]).
  by apply elem_of_nil in Hfile.
Defined.

(** *** The files and the path of each route *)

Section ResolvedRoutes.
Context `{!Collaborators}.
Variables (app : Dir) (layoutRouteId appDir : string).

(** X14: every route below the root of a resolved tree has a module file:
    a module file found under routes, given relative to the application
    directory, whose route id is the id of the route; and a styles file,
    if it has one, is a styles file found under routes with that same route
    id. *)
Theorem resolved_routes_come_from_files (routes : list ConfigRouteObject) :
  defineConventionalRoutes app layoutRouteId appDir = Ok routes →
  ∃ root,
    routes = [root]
    ∧ ∀ node, node ∈ treeNodes (Route.children root) →
        (∃ file, file ∈ routeFileNames app ∧ isModuleFile file = true
                 ∧ Route.moduleFile node = Some (path_join "routes" file)
                 ∧ Route.id node = routeIdOfFile file)
        ∧ (∀ s, Route.stylesFile node = Some s →
                ∃ file, file ∈ routeFileNames app ∧ isModuleFile file = false
                        ∧ isStylesFile file = true
                        ∧ s = path_join "routes" file
                        ∧ Route.id node = routeIdOfFile file).
Proof.
  intros (routeFiles & top & moduleFile & Hscan & Htop & _ & ->)
    %defineConventionalRoutes_Ok_inv.
  apply scan_Ok in Hscan as [_ Hsrc].
  eexists. split; [reflexivity |]. cbn [Route.children].
  intros node (original & Horiginal & Hid & _ & Hmod & Hsty & _)%treeNodes_setParentId.
  rewrite Hid, Hmod, Hsty. clear node Hid Hmod Hsty.
  destruct (defineNestedRoutes_nodes _ _ _ _ _ _ Htop Horiginal)
    as (fuel' & parent & cur & routeId & _ & Hdef).
  apply routeOfChild_Ok in Hdef as (m & nested & Hm & _ & _ & ->).
  cbn [Route.id Route.moduleFile Route.stylesFile].
  pose proof (sourced_keyed _ _ _ _ Hsrc Hm) as Hkey.
  unfold routeFilesAt in *.
  destruct (obj_get routeFiles routeId) as [entry|] eqn:Hget; [| done].
  simpl in *. destruct (proj2 Hsrc routeId entry Hget) as [Hmodule Hstyles].
  split.
  - destruct (Hmodule m Hm) as (file & Hfile & Hismod & -> & Hfid).
    exists file. split_and!; [done | done | done | congruence].
  - intros s Hs. destruct (Hstyles s Hs) as (file & Hfile & Hnot & Hsty & -> & Hfid).
    exists file. split_and!; [done | done | done | done | congruence].
Qed.

(** X15: the path of a route directly below the root is the route path of
    its id without its first seven characters (the length of "routes/");
    the path of a route nested in another is the route path of what
    follows the id of the containing route and the slash in its own id. *)
Theorem resolved_paths_are_relative (routes : list ConfigRouteObject) :
  defineConventionalRoutes app layoutRouteId appDir = Ok routes →
  ∃ root,
    routes = [root]
    ∧ (∀ top, top ∈ Route.children root →
              Route.path top = createRoutePath (slice 7 (Route.id top)))
    ∧ ∀ node child,
        node ∈ treeNodes (Route.children root) →
        child ∈ Route.children node →
        Route.id node ≠ "" →
        ∃ tail, Route.id child = Route.id node +:+ "/" +:+ tail
                ∧ Route.path child = createRoutePath tail.
Proof.
  intros (routeFiles & top & moduleFile & Hscan & Htop & _ & ->)
    %defineConventionalRoutes_Ok_inv.
  apply scan_Ok in Hscan as [_ Hsrc].
  pose proof (λ id m, sourced_keyed _ _ id m Hsrc) as Hkeyed.
  eexists. split; [reflexivity |]. cbn [Route.children]. split.
  - intros route (original & -> & Horiginal)%list_elem_of_fmap.
    pose proof Htop as (fuel' & _ & Hall)%defineNestedRoutes_Ok_inv.
    destruct (Forall2_elem_of_r _ _ _ _ Hall Horiginal) as (routeId & _ & Hdef).
    apply routeOfChild_Ok in Hdef as (m & nested & Hm & _ & _ & ->).
    simpl. by rewrite (Hkeyed _ _ Hm).
  - intros node child
      (original & Horiginal & Hid & _ & _ & _ & Hchildren)%treeNodes_setParentId.
    rewrite Hid, Hchildren. clear node Hid Hchildren.
    destruct (defineNestedRoutes_nodes _ _ _ _ _ _ Htop Horiginal)
      as (fuel' & parent & cur & routeId & _ & Hdef).
    apply routeOfChild_Ok in Hdef as (m & nested & Hm & _ & Hnested & ->).
    cbn [Route.id Route.children]. rewrite (Hkeyed _ _ Hm).
    intros Hchild Hne.
    apply defineNestedRoutes_Ok_inv in Hnested as (fuel'' & _ & Hall).
    destruct (Forall2_elem_of_r _ _ _ _ Hall Hchild)
      as (childId & [Hparent _]%elem_of_childRouteIdsOf & Hdef).
    apply routeOfChild_Ok in Hdef as (m' & nested' & Hm' & _ & _ & ->).
    cbn [Route.id Route.path]. rewrite (Hkeyed _ _ Hm').
    apply findParentRouteId_Some in Hparent as (_ & [tail ->]%startsWith_spec & _).
    exists tail. split; [by rewrite string_app_assoc |].
    rewrite (orElse_nonempty _ _ Hne).
    replace (String.length routeId + 1) with (String.length (routeId +:+ "/"))
      by (rewrite string_length_app; simpl; lia).
    by rewrite slice_app.
Qed.
End ResolvedRoutes.

Lemma resolved_routes_come_from_files_witness :
  ∃ root, take 1 exampleTree = [root]
          ∧ ∀ node, node ∈ treeNodes (Route.children root) →
                    ∃ file, Route.moduleFile node = Some (path_join "routes" file).
Proof.
  destruct (resolved_routes_come_from_files (H := posix_collaborators)
              exampleApp "root" "/site/app" (take 1 exampleTree) eq_refl)
    as (root & Hroot & Hnodes).
  exists root. split; [exact Hroot |].
  intros node Hnode. destruct (Hnodes node Hnode) as [(file & _ & _ & Hfile & _) _].
  by exists file.
Defined.

Lemma resolved_paths_are_relative_witness :
  ∃ root, take 1 exampleTree = [root]
          ∧ ∀ top, top ∈ Route.children root →
                   Route.path top = createRoutePath (slice 7 (Route.id top)).
Proof.
  destruct (resolved_paths_are_relative (H := posix_collaborators)
              exampleApp "root" "/site/app" (take 1 exampleTree) eq_refl)
    as (root & Hroot & Htop & _).
  by exists root.
Defined.

(** ** routesConvention.ts: what [visitFiles] visits *)

Lemma filesUnder_withoutOthers node :
  ∀ file, filesUnder file (withoutOthers node) = filesUnder file node.
Proof.
  induction node as [| | entries IHe] using FsNode_ind_forall; intros file;
    [done | done |].
  cbn [withoutOthers filesUnder]. 
  induction IHe as [|[name node] entries Hentry _ IH]; [done |].
  rewrite fmap_cons. cbn [concat]. rewrite <- IH. clear IH.
  destruct node as [| sub |]; cbn [omap list_omap fst snd].
  - by rewrite fmap_cons.
  - rewrite fmap_cons. cbn [concat fst snd]. f_equal.
    apply (Hentry (relative file name)).
  - done.
Qed.

(** X16: [visitFiles] hands the visitor the regular files of the tree,
    depth first in directory order, and nothing else: entries that are
    neither directories nor regular files (symbolic links, say) are
    skipped, so taking them out of the tree changes no result; and the
    walk ends at the first file the visitor throws on, whatever follows
    it. *)
Theorem visitFiles_regular_files_only {S : Type}
    (visitor : string → S → Result S) (entries : Dir) (st : S) :
  visitFiles (entriesWithoutOthers entries) visitor st = visitFiles entries visitor st
  ∧ (∀ name, visitFiles ((name, FsOther) :: entries) visitor st
             = visitFiles entries visitor st)
  ∧ (∀ visited file later st' e,
       filesUnder "" (FsDir entries) = visited ++ file :: later →
       visitAll visitor visited st = Ok st' →
       visitor file st' = Throw e →
       visitFiles entries visitor st = Throw e).
Proof.
  split_and!.
  - unfold visitFiles, entriesWithoutOthers.
    change (FsDir (match withoutOthers (FsDir entries) with
                   | FsDir pruned => pruned | _ => [] end))
      with (withoutOthers (FsDir entries)).
    by rewrite !visitNode_filesUnder, filesUnder_withoutOthers.
  - intros name. unfold visitFiles. by rewrite !visitNode_filesUnder.
  - intros visited file later st' e Hfiles Hvisited Hthrow.
    unfold visitFiles. rewrite visitNode_filesUnder, Hfiles, visitAll_app, Hvisited.
    simpl. by rewrite Hthrow.
Qed.

Lemma visitFiles_regular_files_only_witness :
  visitFiles [("a.tsx", FsFile); ("b.txt", FsFile); ("c.tsx", FsFile)]
             (collectRouteFile (H := posix_collaborators) "/site/app") []
  = Throw (JsError "Invalid route component file: /site/app/routes/b.txt").
Proof.
  eapply (visitFiles_regular_files_only
            (collectRouteFile (H := posix_collaborators) "/site/app")
            [("a.tsx", FsFile); ("b.txt", FsFile); ("c.tsx", FsFile)] []).
  - by instantiate (1 := ["c.tsx"]); instantiate (1 := "b.txt");
      instantiate (1 := ["a.tsx"]).
  - reflexivity.
  - reflexivity.
Defined.

(** ** config.ts and the build orchestrator together *)

Section ConfigAndInputs.
Context `{!Collaborators}.


End ConfigAndInputs.


(** ** config.ts: defaults *)

Lemma orElse_dropFalsy v d : orElse (dropFalsy v) d = orElse v d.
Proof. by destruct v as [[|c s]|]. Qed.

Lemma orElseNum_dropZero v d : orElseNum (dropZero v) d = orElseNum v d.
Proof. by destruct v as [[| |]|]. Qed.

Section ConfigDefaults.
Context `{!Collaborators}.

(** X18: [readConfig] takes an empty string, or a port of 0, in the
    config file for an absent field, and an empty root argument for an
    absent one; with every field absent the directories are "app",
    "public/build", "data" and "build" under the root, the port is 8002
    and the public path "/build/". *)
Theorem readConfig_falsy_means_default env_REMIX_ROOT cwd fs remixRoot
    (require require' : string → Required) (appConfig : AppConfig.t) :
  require (configFileOf env_REMIX_ROOT cwd remixRoot) = Loaded appConfig →
  require' (configFileOf env_REMIX_ROOT cwd remixRoot)
  = Loaded (withoutFalsy appConfig) →
  readConfig env_REMIX_ROOT cwd require' fs remixRoot
  = readConfig env_REMIX_ROOT cwd require fs remixRoot
  ∧ readConfig env_REMIX_ROOT cwd require fs (Some "")
    = readConfig env_REMIX_ROOT cwd require fs None
  ∧ ∀ config,
      readConfig env_REMIX_ROOT cwd require fs remixRoot = Ok config →
      withoutFalsy appConfig
      = AppConfig.mk None None None None None (AppConfig.routes appConfig) None
                     (AppConfig.mdx appConfig) →
      let root := resolveRoot env_REMIX_ROOT cwd remixRoot in
      RemixConfig.appDirectory config = path_resolve [root; "app"]
      ∧ RemixConfig.browserBuildDirectory config = path_resolve [root; "public/build"]
      ∧ RemixConfig.dataDirectory config = path_resolve [root; "data"]
      ∧ RemixConfig.serverBuildDirectory config = path_resolve [root; "build"]
      ∧ RemixConfig.devServerPort config = 8002%Z
      ∧ RemixConfig.publicPath config = "/build/".
Proof.
  intros Hrequire Hrequire'.
  assert (readConfig env_REMIX_ROOT cwd require' fs remixRoot
          = readConfig env_REMIX_ROOT cwd require fs remixRoot) as Hsame.
  { unfold readConfig. fold (configFileOf env_REMIX_ROOT cwd remixRoot).
    rewrite Hrequire, Hrequire'. unfold withoutFalsy, resolvePublicPath.
    cbn [AppConfig.appDirectory AppConfig.browserBuildDirectory
         AppConfig.dataDirectory AppConfig.devServerPort AppConfig.publicPath
         AppConfig.routes AppConfig.serverBuildDirectory AppConfig.mdx].
    by rewrite !orElse_dropFalsy, orElseNum_dropZero. }
  split_and!; [done | done |].
  intros config Hok Hblank root. rewrite <- Hsame in Hok.
  unfold readConfig in Hok. fold (configFileOf env_REMIX_ROOT cwd remixRoot) in Hok.
  rewrite Hrequire', Hblank in Hok.
  cbn [AppConfig.appDirectory AppConfig.browserBuildDirectory
       AppConfig.dataDirectory AppConfig.devServerPort AppConfig.publicPath
       AppConfig.routes AppConfig.serverBuildDirectory AppConfig.mdx] in Hok.
  apply Result_bind_Ok in Hok as (conventional & _ & Hok).
  apply Result_bind_Ok in Hok as (manual & _ & Hok).
  injection Hok as <-. by split_and!.
Qed.
End ConfigDefaults.

Lemma readConfig_falsy_means_default_witness :
  readConfig (H := posix_collaborators) None "/site"
    (λ _, Loaded emptyAppConfig) (λ _, exampleApp) None
  = readConfig (H := posix_collaborators) None "/site"
      (λ _, Loaded (AppConfig.mk (Some "") None None (Some 0%Z) (Some "") None
                                 (Some "") None))
      (λ _, exampleApp) None.
Proof.
  by apply (readConfig_falsy_means_default (H := posix_collaborators)
              None "/site" (λ _, exampleApp) None
              (λ _, Loaded (AppConfig.mk (Some "") None None (Some 0%Z) (Some "")
                                         None (Some "") None))
              (λ _, Loaded emptyAppConfig)
              (AppConfig.mk (Some "") None None (Some 0%Z) (Some "") None
                            (Some "") None)).
Defined.

(** ** routesConvention.ts: files that share a route id *)

Section RecordedFiles.
Context `{!Collaborators}.
Variable appDir : string.

Lemma recorded_nil : recorded [] [].
Proof. done. Qed.

Lemma routeFilesAt_set_eq id entry routeFiles :
  routeFilesAt (obj_set id entry routeFiles) id = entry.
Proof. unfold routeFilesAt. by rewrite obj_get_set_eq. Qed.

Lemma routeFilesAt_set_ne id id' entry routeFiles :
  id ≠ id' → routeFilesAt (obj_set id entry routeFiles) id' = routeFilesAt routeFiles id'.
Proof. intros Hne. unfold routeFilesAt. by rewrite obj_get_set_ne. Qed.

Lemma last_filter_snoc (p : string → bool) files file :
  last (List.filter p (files ++ [file]))
  = if p file then Some file else last (List.filter p files).
Proof.
  rewrite List.filter_app. simpl. destruct (p file).
  - apply last_snoc.
  - by rewrite app_nil_r.
Qed.

Lemma collectRouteFile_recorded files file routeFiles routeFiles' :
  recorded files routeFiles →
  collectRouteFile appDir file routeFiles = Ok routeFiles' →
  recorded (files ++ [file]) routeFiles'.
Proof.
  intros Hrec Hstep.
  unfold collectRouteFile, findOrCreateFiles in Hstep.
  fold (routeIdOfFile file) in Hstep.
  set (rf0 := match obj_get routeFiles (routeIdOfFile file) with
              | Some _ => routeFiles
              | None => obj_set (routeIdOfFile file) (mkRouteFiles None None) routeFiles
              end).
  assert (match obj_get routeFiles (routeIdOfFile file) with
          | Some _ => (routeIdOfFile file, routeFiles)
          | None => (routeIdOfFile file,
                     obj_set (routeIdOfFile file) (mkRouteFiles None None) routeFiles)
          end = (routeIdOfFile file, rf0)) as Hpair
    by (unfold rf0; by destruct (obj_get routeFiles _)).
  rewrite Hpair in Hstep. clear Hpair.
  assert (∀ id, routeFilesAt rf0 id = routeFilesAt routeFiles id) as Hrf0.
  { intros id. unfold rf0.
    destruct (obj_get routeFiles (routeIdOfFile file)) eqn:Hget; [done |].
    destruct (decide (routeIdOfFile file = id)) as [<- | Hne].
    - rewrite routeFilesAt_set_eq. unfold routeFilesAt. by rewrite Hget.
    - by apply routeFilesAt_set_ne. }
  fold (routeFilesAt rf0 (routeIdOfFile file)) in Hstep.
  rewrite Hrf0 in Hstep.
  intros id. unfold lastModuleFile, lastStylesFile. rewrite !last_filter_snoc.
  destruct (Hrec id) as [Hm Hs]. unfold lastModuleFile, lastStylesFile in Hm, Hs.
  destruct (Hrec (routeIdOfFile file)) as [Hm' Hs'].
  destruct (isModuleFile file) eqn:Hmod; [| destruct (isStylesFile file) eqn:Hsty];
    [| | done]; injection Hstep as <-; simpl;
    (destruct (String.eqb_spec (routeIdOfFile file) id) as [<- | Hne];
     [rewrite routeFilesAt_set_eq | rewrite routeFilesAt_set_ne, Hrf0 by done]);
    simpl; done.
Qed.

Lemma visitAll_recorded files : ∀ done routeFiles routeFiles',
  recorded done routeFiles →
  visitAll (collectRouteFile appDir) files routeFiles = Ok routeFiles' →
  recorded (done ++ files) routeFiles'.
Proof.
  induction files as [|file files IH]; intros done routeFiles routeFiles' Hrec; simpl.
  - intros [= <-]. by rewrite app_nil_r.
  - destruct (collectRouteFile appDir file routeFiles) as [rf | |] eqn:Hstep;
      simpl; [| done | done].
    intros Hrest. replace (done ++ file :: files) with ((done ++ [file]) ++ files)
      by by rewrite <- app_assoc.
    eapply IH; [| exact Hrest]. by eapply collectRouteFile_recorded.
Qed.
End RecordedFiles.

Section LastFileWins.
Context `{!Collaborators}.
Variables (app : Dir) (layoutRouteId appDir : string).

(** X19: when several files under routes share a route id, the route gets
    the module file visited last among the module files with its id, and
    the styles file visited last among the files with its id that are
    styles files and no module files (none if there is none); earlier ones
    are dropped without an error. *)
Theorem resolved_routes_take_last_file (routes : list ConfigRouteObject) :
  defineConventionalRoutes app layoutRouteId appDir = Ok routes →
  ∃ root,
    routes = [root]
    ∧ ∀ node, node ∈ treeNodes (Route.children root) →
        Route.moduleFile node
        = path_join "routes" <$> lastModuleFile (routeFileNames app) (Route.id node)
        ∧ Route.stylesFile node
          = path_join "routes" <$> lastStylesFile (routeFileNames app) (Route.id node).
Proof.
  intros (routeFiles & top & moduleFile & Hscan & Htop & _ & ->)
    %defineConventionalRoutes_Ok_inv.
  pose proof (visitAll_recorded appDir _ [] [] _ recorded_nil Hscan) as Hrec.
  apply scan_Ok in Hscan as [_ Hsrc]. simpl in Hrec.
  eexists. split; [reflexivity |]. cbn [Route.children].
  intros node (original & Horiginal & Hid & _ & Hmod & Hsty & _)%treeNodes_setParentId.
  rewrite Hid, Hmod, Hsty. clear node Hid Hmod Hsty.
  destruct (defineNestedRoutes_nodes _ _ _ _ _ _ Htop Horiginal)
    as (fuel' & parent & cur & routeId & _ & Hdef).
  apply routeOfChild_Ok in Hdef as (m & nested & Hm & _ & _ & ->).
  cbn [Route.id Route.moduleFile Route.stylesFile].
  rewrite (sourced_keyed _ _ _ _ Hsrc Hm).
  destruct (Hrec routeId) as [Hmodule Hstyles].
  by rewrite <- Hmodule, <- Hstyles, Hm.
Qed.
End LastFileWins.

Lemma resolved_routes_take_last_file_witness :
  defineConventionalRoutes (H := posix_collaborators)
    [("root.tsx", FsFile);
     ("routes", FsDir [("gists.js", FsFile); ("gists.tsx", FsFile)])]
    "root" "/site/app"
  = Ok [Route.mk "__root" "/" (Some "root.tsx") None None
          [Route.mk "routes/gists" "gists" (Some "routes/gists.tsx") None
                    (Some "__root") []]]
  ∧ ∃ root,
      [Route.mk "__root" "/" (Some "root.tsx") None None
         [Route.mk "routes/gists" "gists" (Some "routes/gists.tsx") None
                   (Some "__root") []]] = [root]
      ∧ ∀ node, node ∈ treeNodes (Route.children root) →
          Route.moduleFile node
          = path_join "routes"
              <$> lastModuleFile (H := posix_collaborators)
                    ["gists.js"; "gists.tsx"] (Route.id node)
          ∧ Route.stylesFile node
            = path_join "routes"
                <$> lastStylesFile (H := posix_collaborators)
                      ["gists.js"; "gists.tsx"] (Route.id node).
Proof.
  split; [reflexivity |].
  apply (resolved_routes_take_last_file (H := posix_collaborators)
           [("root.tsx", FsFile);
            ("routes", FsDir [("gists.js", FsFile); ("gists.tsx", FsFile)])]
           "root" "/site/app").
  reflexivity.
Defined.
